(** * The etcd-backed repository of [pkg/state/etcd.go]

    A shallow embedding of [etcdRepository]: the key/value facade ([Get],
    [Put], [Delete], [DeleteWithValue]), the watch pipeline ([Watch],
    [WatchPrefix], [notifyWatchEvent], [handleWatchEvent]) and the two
    keepalive entry points ([Heartbeat], [PutIfNotExist]).

    Go values are represented as follows.
    - [string] is [string], [[]byte] is [list byte], and the conversions
      [string(b)] / [[]byte(s)] are [string_of_list_byte] /
      [list_byte_of_string].
    - [int64] is [Z] with the two's complement wrap-around of [Int64.wrap].
    - [error] is the message of the error; the nil error is [None].
    - A channel is a reference into a heap of channel states; a channel
      state records what was sent on it, in order, how often it was
      closed, and whether anybody but its maker holds it yet.
    - A method is a state transformer over [World]: the etcd client, the
      channel heaps, the goroutines started with [go], and the outcomes of
      the [select] statements that race a send against [ctx.Done()].  A
      method returns, or blocks for ever in such a [select]. *)

From Stdlib Require Import ZArith List Bool Lia.
From Stdlib.Strings Require Import String Ascii Byte.
From stdpp Require Import base option list gmap strings fin_maps.

Local Open Scope Z_scope.
Local Open Scope string_scope.

(* A lemma depends on the parameters of its section that its statement names. *)
Set Default Proof Using "Type".

(** ** Machine integers *)

Module Int64.
Definition modulus : Z := 2 ^ 64.
Definition min_int : Z := - 2 ^ 63.
Definition max_int : Z := 2 ^ 63 - 1.

Definition in_range (z : Z) : Prop := min_int <= z <= max_int.

(** The value an [int64] holds after an arithmetic result [z]. *)
Definition wrap (z : Z) : Z := (z + 2 ^ 63) mod modulus - 2 ^ 63.

Definition add (a b : Z) : Z := wrap (a + b).
End Int64.

(** Equality of bytes is decidable, hence that of [[]byte] values. *)
#[global] Instance byte_eq_decision : EqDecision byte := Byte.byte_eq_dec.

(** ** Errors *)

Definition error : Type := string.

(** [fmt.Errorf] with one and with two [%s] verbs, as the file uses it. *)
Definition Errorf1 (pre : string) (a : string) (post : string) : error :=
  pre +:+ a +:+ post.

Definition Errorf2 (pre a mid b : string) : error :=
  pre +:+ a +:+ mid +:+ b.

(** ** The etcd client

    Modelled from the spec: the backing store is an external collaborator;
    section 6 of the specification gives the surface consumed here
    (Get with header revision and entries, Put, Delete, Watch from a
    revision, Transaction with a compare and then-operations).  The store
    is a finite map from keys to values with a revision counter.  An RPC
    may fail in transport: [faults] lists the outcome of the coming RPCs
    ([None]: the call goes through; exhausted: all later calls go through).
    [feed] is what a change stream opened with given arguments will deliver
    before the server closes it. *)

Module etcd.

Record KeyValue := { Key : list byte; Value : list byte }.

Record ResponseHeader := { Revision : Z }.

Record GetResponse := { Header : ResponseHeader; Kvs : list KeyValue }.

Inductive EventType := EventTypePut | EventTypeDelete.

Record Event := { Type' : EventType; Kv : KeyValue }.

(** [Err] stands for the result of the method [WatchResponse.Err()]. *)
Record WatchResponse := { Events : list Event; Err : option error }.

(** A [WatchChan] is read with [range] until it is closed: its content. *)
Definition WatchChan : Type := list WatchResponse.

Inductive OpOption :=
| WithRev (rev : Z)
| WithPrefix
| WithSerializable
| WithPrevKV.

(** [Compare(Value(key), "=", v)], the only comparison the file builds. *)
Inductive Cmp := CompareValueEqual (key : string) (v : string).

Inductive Op := OpDelete (key : string).

Record TxnResponse := { Succeeded : bool }.

Inductive Call :=
| CallGet (key : string) (opts : list OpOption)
| CallPut (key : string) (val : string)
| CallDelete (key : string)
| CallWatch (key : string) (opts : list OpOption)
| CallTxn (ifs : list Cmp) (thens : list Op).

Record Client := {
  store : gmap string (list byte);
  revision : Z;
  faults : list (option error);
  feed : string -> list OpOption -> WatchChan;
  calls : list Call
}.

Definition set_store (f : gmap string (list byte) -> gmap string (list byte))
    (c : Client) : Client :=
  {| store := f (store c); revision := revision c; faults := faults c;
     feed := feed c; calls := calls c |}.

Definition set_revision (r : Z) (c : Client) : Client :=
  {| store := store c; revision := r; faults := faults c;
     feed := feed c; calls := calls c |}.

Definition log (call : Call) (c : Client) : Client :=
  {| store := store c; revision := revision c; faults := faults c;
     feed := feed c; calls := calls c ++ [call] |}.

(** The transport outcome of the next RPC. *)
Definition transport (c : Client) : option error * Client :=
  match faults c with
  | [] => (None, c)
  | f :: rest =>
      (f, {| store := store c; revision := revision c; faults := rest;
             feed := feed c; calls := calls c |})
  end.

Definition has_prefix_opt (opts : list OpOption) : bool :=
  existsb (fun o => match o with WithPrefix => true | _ => false end) opts.

Definition entry (kv : string * list byte) : KeyValue :=
  {| Key := list_byte_of_string kv.1; Value := kv.2 |}.

(** The entries a read of [key] returns: the entry of the key itself, or
    with [WithPrefix] every entry whose key starts with [key]. *)
Definition range (key : string) (opts : list OpOption)
    (m : gmap string (list byte)) : list KeyValue :=
  if has_prefix_opt opts
  then entry <$> map_to_list (filter (fun kv => Is_true (String.prefix key kv.1)) m)
  else match m !! key with
       | Some v => [entry (key, v)]
       | None => []
       end.

Definition Get (key : string) (opts : list OpOption) (c : Client)
    : (GetResponse + error) * Client :=
  let c := log (CallGet key opts) c in
  match transport c with
  | (Some e, c') => (inr e, c')
  | (None, c') =>
      (inl {| Header := {| Revision := revision c' |};
              Kvs := range key opts (store c') |}, c')
  end.

Definition Put (key : string) (val : string) (c : Client)
    : option error * Client :=
  let c := log (CallPut key val) c in
  match transport c with
  | (Some e, c') => (Some e, c')
  | (None, c') =>
      (None, set_revision (Int64.add (revision c') 1)
               (set_store (insert key (list_byte_of_string val)) c'))
  end.

Definition Delete (key : string) (c : Client) : option error * Client :=
  let c := log (CallDelete key) c in
  match transport c with
  | (Some e, c') => (Some e, c')
  | (None, c') =>
      match store c' !! key with
      | Some _ =>
          (None, set_revision (Int64.add (revision c') 1)
                   (set_store (delete key) c'))
      | None => (None, c')
      end
  end.

(** A value comparison on a key that has no entry fails. *)
Definition holds (m : gmap string (list byte)) (cmp : Cmp) : bool :=
  match cmp with
  | CompareValueEqual key v =>
      match m !! key with
      | Some stored => bool_decide (stored = list_byte_of_string v)
      | None => false
      end
  end.

Definition apply_op (m : gmap string (list byte)) (op : Op)
    : gmap string (list byte) :=
  match op with
  | OpDelete key => delete key m
  end.

Definition mutates (m : gmap string (list byte)) (op : Op) : bool :=
  match op with
  | OpDelete key => bool_decide (is_Some (m !! key))
  end.

(** [Txn(ctx).If(ifs...).Then(thens...).Commit()]: one RPC; the
    then-operations are applied iff every comparison holds. *)
Definition Txn (ifs : list Cmp) (thens : list Op) (c : Client)
    : (TxnResponse + error) * Client :=
  let c := log (CallTxn ifs thens) c in
  match transport c with
  | (Some e, c') => (inr e, c')
  | (None, c') =>
      if forallb (holds (store c')) ifs
      then (inl {| Succeeded := true |},
            (if existsb (mutates (store c')) thens
             then set_revision (Int64.add (revision c') 1)
             else fun c => c)
              (set_store (fun m => fold_left apply_op thens m) c'))
      else (inl {| Succeeded := false |}, c')
  end.

(** The coming [n] RPCs go through. *)
Definition healthy (n : nat) (c : Client) : bool :=
  forallb (fun f => match f with None => true | Some _ => false end)
    (take n (faults c)).

(** Opening a change stream is not an RPC that can fail here: the client
    returns the stream at once. *)
Definition Watch (key : string) (opts : list OpOption) (c : Client)
    : WatchChan * Client :=
  (feed c key opts, log (CallWatch key opts) c).

End etcd.

(** ** The event model

    Modelled from the spec: [Event], [EventType], [WatchEventChan] and
    [Closed] are declared in a file of the package that is not under src/;
    section 3 of the specification gives them: an event is
    {Type in {Modify, Delete}, Key, Value, Err}, and [Closed] has no
    payload. *)

Inductive EventType := EventTypeModify | EventTypeDelete.

Record Event := {
  Type' : EventType;
  Key : string;
  Value : list byte;
  Err : option error
}.

(** [&Event{Err: err}]: the fields not named keep their zero values (the
    type of an error event is never read; the first constant stands for
    the zero of [EventType]). *)
Definition errEvent (err : error) : Event :=
  {| Type' := EventTypeModify; Key := ""; Value := []; Err := Some err |}.

Definition is_err (e : Event) : bool :=
  match Err e with Some _ => true | None => false end.

Definition Closed : Type := unit.

(** ** Channels *)

Record Chan (A : Type) := {
  cap : nat;          (* buffer depth given to [make] *)
  sent : list A;      (* the values sent so far, oldest first *)
  closes : nat;       (* how many times [close] ran on the channel *)
  held : bool         (* the caller has been given the channel and can
                         receive from it *)
}.
Arguments cap {A} _.
Arguments sent {A} _.
Arguments closes {A} _.
Arguments held {A} _.

(** [make(chan A, n)]: until the function that made the channel returns
    it, nobody else holds it. *)
Definition mkChan {A : Type} (n : nat) : Chan A :=
  {| cap := n; sent := []; closes := 0; held := false |}.

Definition is_open {A : Type} (c : Chan A) : bool := Nat.eqb (closes c) 0.

(** A send can proceed when a receiver can take the value or the buffer
    has room.  Nothing has been received from a channel nobody else holds,
    so its buffer has room as long as fewer than [cap] values were sent. *)
Definition ready {A : Type} (c : Chan A) : bool :=
  held c || Nat.ltb (length (sent c)) (cap c).

Definition chan_send {A : Type} (x : A) (c : Chan A) : Chan A :=
  {| cap := cap c; sent := sent c ++ [x]; closes := closes c; held := held c |}.

Definition chan_close {A : Type} (c : Chan A) : Chan A :=
  {| cap := cap c; sent := sent c; closes := S (closes c); held := held c |}.

Definition chan_hand_over {A : Type} (c : Chan A) : Chan A :=
  {| cap := cap c; sent := sent c; closes := closes c; held := true |}.

(** A channel value: the index of its state in the heap. *)
Abbreviation WatchEventChan := nat.
Abbreviation ClosedChan := nat.

(** ** A heartbeat helper to run the methods on

    Modelled from the spec: the lease manager ([newHeartbeat],
    [grantKeepAliveLease], [heartbeat.PutIfNotExist], [keepAlive]) is in a
    file that is not under src/.  Section 4.3 of the specification:
    Heartbeat "grants a new lease with the given TTL, attaches the
    key/value to it (overwriting unconditionally)"; PutIfAbsentAndKeepAlive
    "grants a lease, then executes a single conditional transaction: if
    key's current value does not exist, put key=value bound to the new
    lease; else no-op".  Leases themselves are the store's business and
    are not represented; a keepalive loop that exits leaves the client as
    it found it.  The methods of the repository are defined over any such
    helper; this one serves to evaluate them. *)

Module SpecHeartbeat.

Record heartbeat := { key : string; value : list byte; ttl : Z }.

Definition newHeartbeat (k : string) (v : list byte) (t : Z) : heartbeat :=
  {| key := k; value := v; ttl := t |}.

Definition grantKeepAliveLease (h : heartbeat) (c : etcd.Client)
    : (heartbeat * option error) * etcd.Client :=
  match etcd.transport c with
  | (Some e, c') => ((h, Some e), c')
  | (None, c') =>
      let (err, c'') := etcd.Put (key h) (string_of_list_byte (value h)) c' in
      ((h, err), c'')
  end.

Definition PutIfNotExist (h : heartbeat) (c : etcd.Client)
    : (heartbeat * (bool * option error)) * etcd.Client :=
  match etcd.transport c with
  | (Some e, c') => ((h, (false, Some e)), c')
  | (None, c') =>
      match etcd.transport c' with
      | (Some e, c'') => ((h, (false, Some e)), c'')
      | (None, c'') =>
          match etcd.store c'' !! key h with
          | Some _ => ((h, (false, None)), c'')
          | None =>
              ((h, (true, None)),
               etcd.set_revision (Int64.add (etcd.revision c'') 1)
                 (etcd.set_store (insert (key h) (value h)) c''))
          end
      end
  end.

Definition keepAlive (h : heartbeat) (isElect : bool) (c : etcd.Client)
    : etcd.Client := c.

End SpecHeartbeat.

(** ** Concrete stores and streams to evaluate the methods on *)

Module Examples.

Definition bytes (s : string) : list byte := list_byte_of_string s.

(** The response etcd sends before it closes a stream whose start
    revision was compacted away. *)
Definition compacted : etcd.WatchResponse :=
  {| etcd.Events := [];
     etcd.Err := Some "etcdserver: mvcc: required revision has been compacted" |}.

(** A put and a delete of the key svc/2 in one batch. *)
Definition changes : etcd.WatchResponse :=
  {| etcd.Events :=
       [ {| etcd.Type' := etcd.EventTypePut;
            etcd.Kv := {| etcd.Key := bytes "svc/2"; etcd.Value := bytes "up" |} |};
         {| etcd.Type' := etcd.EventTypeDelete;
            etcd.Kv := {| etcd.Key := bytes "svc/2"; etcd.Value := [] |} |} ];
     etcd.Err := None |}.

(** svc/1 has a value, svc/2 has an entry with the empty value. *)
Definition entries : gmap string (list byte) :=
  <["svc/1" := bytes "alive"]> (<["svc/2" := []]> (<["lock/a" := bytes "node1"]> ∅)).

(** The stream on svc/1 is compacted; any other stream delivers
    [changes] and is closed. *)
Definition streams (key : string) (opts : list etcd.OpOption) : etcd.WatchChan :=
  if String.eqb key "svc/1" then [compacted] else [changes].

Definition server (faults : list (option error)) : etcd.Client :=
  {| etcd.store := entries; etcd.revision := 7; etcd.faults := faults;
     etcd.feed := streams; etcd.calls := [] |}.

End Examples.

(** ** Making a repository

    [newEtedRepository] takes a value of type [interface{}] and asserts
    that its dynamic type is [etcd.Config].  [etcd.Config] and [etcd.New]
    belong to the etcd client library and are parameters here; a value of
    type [interface{}] is either a [Config] or a value of some other
    dynamic type (the nil interface among them). *)

Module Construction.
Section WithEtcd.

Variable Config : Type.
Variable New : Config -> etcd.Client + error.

Inductive any :=
| AnyConfig (v : Config)
| AnyOther.

Record etcdRepository := { client : etcd.Client }.

(** [newEtedRepository] *)
Definition newEtedRepository (config : any) : option etcdRepository * option error :=
  match config with
  | AnyOther => (None, Some "config type is not etc.confit")
  | AnyConfig v =>
      match New v with
      | inr err => (None, Some ("create etc client error:" +:+ err))
      | inl cli => (Some {| client := cli |}, None)
      end
  end.

End WithEtcd.
End Construction.

Section Repository.

(** *** The heartbeat helper

    [newHeartbeat], [grantKeepAliveLease], [heartbeat.PutIfNotExist] and
    [keepAlive] belong to a file of the package that is not under src/.
    They are parameters here: a heartbeat holds the client and what it
    was built from, so its methods act on the heartbeat and on the
    client, and on nothing else of the world.  [keepAlive h isElect c]
    is the client as a run of the keepalive loop leaves it when the loop
    exits. *)
Context {heartbeat : Type}.
Variable newHeartbeat : string -> list byte -> Z -> heartbeat.
Variable grantKeepAliveLease :
  heartbeat -> etcd.Client -> (heartbeat * option error) * etcd.Client.
Variable heartbeat_PutIfNotExist :
  heartbeat -> etcd.Client -> (heartbeat * (bool * option error)) * etcd.Client.
Variable keepAlive : heartbeat -> bool -> etcd.Client -> etcd.Client.

(** *** Goroutines and the world *)

(** The two function values the file starts with [go]. *)
Inductive Goroutine :=
| GoHandleWatchEvent (wc : etcd.WatchChan) (ech : WatchEventChan)
    (* go r.handleWatchEvent(ctx, wch, ch) *)
| GoKeepAlive (h : heartbeat) (isElect : bool) (ch : ClosedChan).
    (* go func() { defer close(ch); h.keepAlive(ctx, isElect) }() *)

Record World := {
  client : etcd.Client;
  echans : list (Chan Event);      (* heap of [chan *Event] *)
  cchans : list (Chan Closed);     (* heap of [chan Closed] *)
  sched : list bool;               (* outcomes of the coming selects *)
  goroutines : list Goroutine;     (* started with [go], oldest first *)
  panicked : bool                  (* a send or close hit a closed channel *)
}.

Definition with_client (c : etcd.Client) (w : World) : World :=
  {| client := c; echans := echans w; cchans := cchans w;
     sched := sched w; goroutines := goroutines w; panicked := panicked w |}.

Definition with_echans (l : list (Chan Event)) (w : World) : World :=
  {| client := client w; echans := l; cchans := cchans w;
     sched := sched w; goroutines := goroutines w; panicked := panicked w |}.

Definition with_cchans (l : list (Chan Closed)) (w : World) : World :=
  {| client := client w; echans := echans w; cchans := l;
     sched := sched w; goroutines := goroutines w; panicked := panicked w |}.

Definition with_sched (s : list bool) (w : World) : World :=
  {| client := client w; echans := echans w; cchans := cchans w;
     sched := s; goroutines := goroutines w; panicked := panicked w |}.

Definition with_goroutines (g : list Goroutine) (w : World) : World :=
  {| client := client w; echans := echans w; cchans := cchans w;
     sched := sched w; goroutines := g; panicked := panicked w |}.

Definition panic (w : World) : World :=
  {| client := client w; echans := echans w; cchans := cchans w;
     sched := sched w; goroutines := goroutines w; panicked := true |}.

(** *** The monad of methods

    A method, run from a world, either returns a value and leaves a world,
    or blocks for ever in a [select] none of whose cases can ever run, in
    the world it had reached. *)

Inductive Outcome (A : Type) :=
| Done (a : A) (w : World)
| Blocked (w : World).
Arguments Done {A} a w.
Arguments Blocked {A} w.

Definition value {A : Type} (o : Outcome A) : option A :=
  match o with Done a _ => Some a | Blocked _ => None end.

Definition world {A : Type} (o : Outcome A) : World :=
  match o with Done _ w => w | Blocked w => w end.

Definition M (A : Type) : Type := World -> Outcome A.

Definition ret {A : Type} (a : A) : M A := fun w => Done a w.

Definition bind {A B : Type} (m : M A) (k : A -> M B) : M B :=
  fun w => match m w with
           | Done a w' => k a w'
           | Blocked w' => Blocked w'
           end.

(** A call on the client, which the world owns. *)
Definition on_client {A : Type} (f : etcd.Client -> A * etcd.Client) : M A :=
  fun w => let (a, c) := f (client w) in Done a (with_client c w).

Notation "'let*' x ':=' m 'in' k" := (bind m (fun x => k))
  (at level 10, x name, m at level 100, k at level 200, only parsing).
Notation "'let*' ' p ':=' m 'in' k" := (bind m (fun p => k))
  (at level 10, p pattern, m at level 100, k at level 200, only parsing).

(** *** Channel operations *)

(** [make(chan *Event, n)] *)
Definition make_echan (n : nat) : M WatchEventChan :=
  fun w => Done (length (echans w)) (with_echans (echans w ++ [mkChan n]) w).

(** [make(chan Closed)] *)
Definition make_cchan (n : nat) : M ClosedChan :=
  fun w => Done (length (cchans w)) (with_cchans (cchans w ++ [mkChan n]) w).

(** A completed [ch <- event].  Sending on a closed channel panics. *)
Definition send_echan (ch : WatchEventChan) (event : Event) (w : World) : World :=
  match echans w !! ch with
  | Some c =>
      if is_open c
      then with_echans (<[ch := chan_send event c]> (echans w)) w
      else panic w
  | None => panic w
  end.

(** [close(ch)].  Closing a closed channel panics. *)
Definition close_echan (ch : WatchEventChan) : M unit :=
  fun w =>
    match echans w !! ch with
    | Some c =>
        let w' := with_echans (<[ch := chan_close c]> (echans w)) w in
        Done tt (if is_open c then w' else panic w')
    | None => Done tt (panic w)
    end.

Definition close_cchan (ch : ClosedChan) : M unit :=
  fun w =>
    match cchans w !! ch with
    | Some c =>
        let w' := with_cchans (<[ch := chan_close c]> (cchans w)) w in
        Done tt (if is_open c then w' else panic w')
    | None => Done tt (panic w)
    end.

(** [go f(...)] *)
Definition go (g : Goroutine) : M unit :=
  fun w => Done tt (with_goroutines (goroutines w ++ [g]) w).

(** [return ch, nil]: from here on the caller holds the channel. *)
Definition hand_over (ch : WatchEventChan) : M unit :=
  fun w =>
    match echans w !! ch with
    | Some c => Done tt (with_echans (<[ch := chan_hand_over c]> (echans w)) w)
    | None => Done tt w
    end.

(** *** The methods of [etcdRepository]

    The [ctx] argument of every method is the world's [sched]: the only
    use the file makes of the context, besides handing it to the client,
    is the [select] of [notifyWatchEvent]. *)

(** Whether a send on the channel can proceed (never, on a nil channel). *)
Definition can_send (ch : WatchEventChan) (w : World) : bool :=
  match echans w !! ch with
  | Some c => ready c
  | None => false
  end.

(** [notifyWatchEvent]: [select { case ch <- event: return true;
    case <-ctx.Done(): return false }].  The next outcome of the schedule
    tells whether the context is cancelled when the select runs: on
    [false] it is and its case runs; on [true], and when the schedule is
    used up, it is not and never will be while the select waits, so the
    send runs if it can proceed and the select blocks for ever if it
    cannot. *)
Definition notifyWatchEvent (ch : WatchEventChan) (event : Event) : M bool :=
  fun w =>
    match sched w with
    | [] =>
        if can_send ch w then Done true (send_echan ch event w) else Blocked w
    | true :: rest =>
        if can_send ch w
        then Done true (send_echan ch event (with_sched rest w))
        else Blocked (with_sched rest w)
    | false :: rest => Done false (with_sched rest w)
    end.

(** [get] *)
Definition get (key : string) : M (etcd.GetResponse + error) :=
  let* r := on_client (etcd.Get key []) in
  match r with
  | inr err => ret (inr (Errorf2 "get value failure for key[" key "], error:" err))
  | inl resp => ret (inl resp)
  end.

(** [getValue] *)
Definition getValue (key : string) (resp : etcd.GetResponse)
    : list byte * option error :=
  if Nat.eqb (length (etcd.Kvs resp)) 0
  then ([], Some (Errorf1 "key[" key "] not exist"))
  else
    match etcd.Kvs resp with
    | firstkv :: _ =>
        if Nat.eqb (length (etcd.Value firstkv)) 0
        then ([], Some (Errorf1 "key[" key "]'s value is empty"))
        else (etcd.Value firstkv, None)
    | [] => ([], None) (* resp.Kvs[0] out of range: excluded by the test above *)
    end.

(** [Get] *)
Definition Get (key : string) : M (list byte * option error) :=
  let* r := get key in
  match r with
  | inr err => ret ([], Some err)
  | inl resp => ret (getValue key resp)
  end.

(** [Put] *)
Definition Put (key : string) (val : list byte) : M (option error) :=
  let* err := on_client (etcd.Put key (string_of_list_byte val)) in
  match err with
  | Some e => ret (Some e)
  | None => ret None
  end.

(** [Delete] *)
Definition Delete (key : string) : M (option error) :=
  let* err := on_client (etcd.Delete key) in
  match err with
  | Some e => ret (Some e)
  | None => ret None
  end.

(** [Heartbeat] *)
Definition Heartbeat (key : string) (value : list byte) (ttl : Z)
    : M (option ClosedChan * option error) :=
  let h := newHeartbeat key value ttl in
  let* '(h, err) := on_client (grantKeepAliveLease h) in
  match err with
  | Some e => ret (None, Some e)
  | None =>
      let* ch := make_cchan 0 in
      let* _ := go (GoKeepAlive h false ch) in
      ret (Some ch, None)
  end.

(** [PutIfNotExist] *)
Definition PutIfNotExist (key : string) (value : list byte) (ttl : Z)
    : M (bool * option ClosedChan * option error) :=
  let h := newHeartbeat key value ttl in
  let* '(h, (success, err)) := on_client (heartbeat_PutIfNotExist h) in
  match err with
  | Some e => ret (false, None, Some e)
  | None =>
      if success
      then
        let* ch := make_cchan 0 in
        let* _ := go (GoKeepAlive h true ch) in
        ret (success, Some ch, None)
      else ret (success, None, None)
  end.

(** The value of [&Event{Type: EventTypeModify, Key: key, Value: value}]. *)
Definition modifyEvent (key : string) (value : list byte) : Event :=
  {| Type' := EventTypeModify; Key := key; Value := value; Err := None |}.

(** The event [handleWatchEvent] builds from a raw event. *)
Definition convert (event : etcd.Event) : Event :=
  let eventType :=
    match etcd.Type' event with
    | etcd.EventTypeDelete => EventTypeDelete
    | _ => EventTypeModify
    end in
  let kv := etcd.Kv event in
  {| Type' := eventType; Key := string_of_list_byte (etcd.Key kv);
     Value := etcd.Value kv; Err := None |}.

(** The inner loop of [handleWatchEvent], [for _, event := range
    watchResp.Events]; [false] stands for the [return] in its body. *)
Fixpoint relayEvents (ech : WatchEventChan) (events : list etcd.Event) : M bool :=
  match events with
  | [] => ret true
  | event :: rest =>
      let* ok := notifyWatchEvent ech (convert event) in
      if negb ok then ret false else relayEvents ech rest
  end.

(** The outer loop, [for watchResp := range wc]; [true]: the stream was
    closed and the loop ended, [false]: a [return] left it. *)
Fixpoint relayResponses (ech : WatchEventChan) (wc : etcd.WatchChan) : M bool :=
  match wc with
  | [] => ret true
  | watchResp :: rest =>
      let* ok :=
        match etcd.Err watchResp with
        | Some err => notifyWatchEvent ech (errEvent err)
        | None => ret true
        end in
      if negb ok then ret false
      else
        let* ok := relayEvents ech (etcd.Events watchResp) in
        if negb ok then ret false else relayResponses ech rest
  end.

(** [handleWatchEvent]; the deferred [close(ech)] runs on every exit. *)
Definition handleWatchEvent (wc : etcd.WatchChan) (ech : WatchEventChan) : M unit :=
  let* ended := relayResponses ech wc in
  let* _ :=
    if ended
    then let* _ := notifyWatchEvent ech (errEvent "watch is closed") in ret tt
    else ret tt in
  close_echan ech.

Definition notify_error : error :=
  "notify watch event error, maybe context is canceled".

(** [Watch] *)
Definition Watch (key : string) : M (option WatchEventChan * option error) :=
  let* r := get key in
  match r with
  | inr err => ret (None, Some err)
  | inl resp =>
      let opts := [etcd.WithRev (Int64.add (etcd.Revision (etcd.Header resp)) 1)] in
      let* wch := on_client (etcd.Watch key opts) in
      let* ch := make_echan 1 in
      let* ok :=
        if negb (Nat.eqb (length (etcd.Kvs resp)) 0)
        then
          match etcd.Kvs resp with
          | firstkv :: _ =>
              if negb (Nat.eqb (length (etcd.Value firstkv)) 0)
              then notifyWatchEvent ch (modifyEvent key (etcd.Value firstkv))
              else ret true
          | [] => ret true
          end
        else ret true in
      if negb ok
      then
        let* _ := close_echan ch in
        ret (None, Some notify_error)
      else
        let* _ := go (GoHandleWatchEvent wch ch) in
        let* _ := hand_over ch in
        ret (Some ch, None)
  end.

(** The loop of [WatchPrefix] over [resp.Kvs]; [false]: a send lost. *)
Fixpoint notifyEntries (ch : WatchEventChan) (kvs : list etcd.KeyValue) : M bool :=
  match kvs with
  | [] => ret true
  | kv :: rest =>
      let* ok :=
        notifyWatchEvent ch
          (modifyEvent (string_of_list_byte (etcd.Key kv)) (etcd.Value kv)) in
      if negb ok then ret false else notifyEntries ch rest
  end.

(** [WatchPrefix] *)
Definition WatchPrefix (prefixKey : string)
    : M (option WatchEventChan * option error) :=
  let* r := on_client (etcd.Get prefixKey [etcd.WithPrefix; etcd.WithSerializable]) in
  match r with
  | inr err => ret (None, Some err)
  | inl resp =>
      let options :=
        [etcd.WithRev (Int64.add (etcd.Revision (etcd.Header resp)) 1);
         etcd.WithPrefix; etcd.WithPrevKV] in
      let* wch := on_client (etcd.Watch prefixKey options) in
      let* ch := make_echan 0 in
      let* ok :=
        if negb (Nat.eqb (length (etcd.Kvs resp)) 0)
        then notifyEntries ch (etcd.Kvs resp)
        else ret true in
      if negb ok
      then
        let* _ := close_echan ch in
        ret (None, Some notify_error)
      else
        let* _ := go (GoHandleWatchEvent wch ch) in
        let* _ := hand_over ch in
        ret (Some ch, None) (* [return ch, err]: [err] is nil here *)
  end.

(** [DeleteWithValue] *)
Definition DeleteWithValue (key : string) (value : list byte)
    : M (bool * option error) :=
  let cmp := etcd.CompareValueEqual key (string_of_list_byte value) in
  let* r := on_client (etcd.Txn [cmp] [etcd.OpDelete key]) in
  match r with
  | inr err => ret (false, Some err)
  | inl resp => ret (etcd.Succeeded resp, None)
  end.

(** The life of a goroutine: it runs its function; the keepalive task,
    once [keepAlive] has returned, still has its deferred [close(ch)] to
    run; then it has exited.  ([handleWatchEvent] carries its own deferred
    close.) *)
Inductive Task :=
| Running (g : Goroutine)
| Deferred (ch : ClosedChan)
| Exited.

(** One stage of that life. *)
Definition step (t : Task) : M Task :=
  match t with
  | Running (GoHandleWatchEvent wc ech) =>
      let* _ := handleWatchEvent wc ech in
      ret Exited
  | Running (GoKeepAlive h isElect ch) =>
      let* _ := on_client (fun c => (tt, keepAlive h isElect c)) in
      ret (Deferred ch)
  | Deferred ch =>
      let* _ := close_cchan ch in
      ret Exited
  | Exited => ret Exited
  end.

(** Running a goroutine to its end. *)
Definition run (g : Goroutine) : M unit :=
  let* t := step (Running g) in
  let* _ := step t in
  ret tt.

(** *** Names for results and start states *)

(** The two errors of [getValue] and the wrapped error of [get]. *)
Definition NotFound (key : string) : error := "key[" +:+ key +:+ "] not exist".
Definition Empty (key : string) : error := "key[" +:+ key +:+ "]'s value is empty".
Definition GetFailure (key : string) (err : error) : error :=
  "get value failure for key[" +:+ key +:+ "], error:" +:+ err.

(** Sending a list of events one after the other, each through
    [notifyWatchEvent], until one loses: the shape of the three loops of
    the file. *)
Fixpoint notifyAll (ch : WatchEventChan) (evs : list Event) : M bool :=
  match evs with
  | [] => ret true
  | e :: rest =>
      let* ok := notifyWatchEvent ch e in
      if negb ok then ret false else notifyAll ch rest
  end.

(** Of [n] sends attempted in a row under schedule [s], on a channel whose
    sends can proceed, how many run before one loses against the
    context. *)
Fixpoint wins (s : list bool) (n : nat) {struct n} : nat :=
  match n with
  | O => O
  | S n' =>
      match s with
      | [] => n
      | true :: r => S (wins r n')
      | false :: _ => O
      end
  end.

(** The schedule left after these attempts. *)
Fixpoint remaining (s : list bool) (n : nat) {struct n} : list bool :=
  match n with
  | O => s
  | S n' =>
      match s with
      | [] => []
      | true :: r => remaining r n'
      | false :: r => r
      end
  end.

(** What the relay attempts to send for a raw stream, in order: for each
    response its error, if it has one, then its events; and when the
    stream is closed, the closing error. *)
Definition response_events (r : etcd.WatchResponse) : list Event :=
  (match etcd.Err r with Some err => [errEvent err] | None => [] end
   ++ map convert (etcd.Events r))%list.

Definition stream_events (wc : etcd.WatchChan) : list Event :=
  flat_map response_events wc.

Definition closed_event : Event := errEvent "watch is closed".

Definition relay_events (wc : etcd.WatchChan) : list Event :=
  (stream_events wc ++ [closed_event])%list.

(** The initial event [WatchPrefix] builds from an entry. *)
Definition entry_event (kv : etcd.KeyValue) : Event :=
  modifyEvent (string_of_list_byte (etcd.Key kv)) (etcd.Value kv).

(** The initial events of [Watch] for a store. *)
Definition Watch_initial (key : string) (m : gmap string (list byte)) : list Event :=
  match m !! key with
  | Some (b :: v) => [modifyEvent key (b :: v)]
  | _ => []
  end.

(** The initial events of [WatchPrefix] for a store. *)
Definition WatchPrefix_initial (prefixKey : string) (m : gmap string (list byte))
    : list Event :=
  map entry_event (etcd.range prefixKey [etcd.WithPrefix; etcd.WithSerializable] m).

(** The client after the read and the opening of the stream. *)
Definition opened (key : string) (getopts watchopts : list etcd.OpOption)
    (c : etcd.Client) : etcd.Client :=
  etcd.log (etcd.CallWatch key watchopts)
    (etcd.transport (etcd.log (etcd.CallGet key getopts) c)).2.

(** No event follows an event that bears an error. *)
Fixpoint err_is_last (evs : list Event) : bool :=
  match evs with
  | [] => true
  | e :: rest =>
      (if is_err e then match rest with [] => true | _ => false end else true)
      && err_is_last rest
  end.

(** A world with no channel and no goroutine yet. *)
Definition start (c : etcd.Client) (s : list bool) : World :=
  {| client := c; echans := []; cchans := []; sched := s;
     goroutines := []; panicked := false |}.

(** A world that differs from another in the content of one event channel
    at most (and in the schedule and the panic flag). *)
Definition only_touches (ech : WatchEventChan) (w w' : World) : Prop :=
  client w' = client w /\ cchans w' = cchans w /\ goroutines w' = goroutines w
  /\ length (echans w') = length (echans w)
  /\ forall j : nat, j <> ech -> echans w' !! j = echans w !! j.

(** None of the events bears an error. *)
Definition no_err (evs : list Event) : bool :=
  forallb (fun e => negb (is_err e)) evs.

(** ** Properties *)

(** *** The key/value facade *)

Lemma append_inj_l (p a b : string) : p +:+ a = p +:+ b -> a = b.
Proof.
  induction p as [|ch p IH]; simpl; intros H; [exact H|].
  injection H as H. auto.
Qed.

Lemma NotFound_neq_Empty (key : string) : NotFound key <> Empty key.
Proof.
  unfold NotFound, Empty. intros H.
  apply append_inj_l in H. apply append_inj_l in H. discriminate H.
Qed.

Lemma GetFailure_neq (key key' : string) (err : error) :
  GetFailure key err <> NotFound key' /\ GetFailure key err <> Empty key'.
Proof. split; intros H; discriminate H. Qed.

Lemma getValue_cases (key : string) (resp : etcd.GetResponse) :
  getValue key resp =
  match etcd.Kvs resp with
  | [] => ([], Some (NotFound key))
  | firstkv :: _ =>
      match etcd.Value firstkv with
      | [] => ([], Some (Empty key))
      | _ :: _ => (etcd.Value firstkv, None)
      end
  end.
Proof.
  unfold getValue. destruct (etcd.Kvs resp) as [|kv kvs]; [reflexivity|].
  simpl. destruct (etcd.Value kv); reflexivity.
Qed.

Lemma transport_log (call : etcd.Call) (c : etcd.Client) :
  (etcd.transport (etcd.log call c)).1 = (etcd.transport c).1.
Proof. unfold etcd.transport, etcd.log. simpl. destruct (etcd.faults c); reflexivity. Qed.

Lemma transport_store (c : etcd.Client) :
  etcd.store (etcd.transport c).2 = etcd.store c /\
  etcd.revision (etcd.transport c).2 = etcd.revision c /\
  etcd.calls (etcd.transport c).2 = etcd.calls c /\
  etcd.feed (etcd.transport c).2 = etcd.feed c /\
  etcd.faults (etcd.transport c).2 = tail (etcd.faults c).
Proof.
  unfold etcd.transport.
  destruct (etcd.faults c) eqn:E; simpl; rewrite ?E; repeat split.
Qed.

Lemma etcd_Get_ok (key : string) (opts : list etcd.OpOption) (c : etcd.Client) :
  (etcd.transport c).1 = None ->
  etcd.Get key opts c =
  (inl {| etcd.Header := {| etcd.Revision := etcd.revision c |};
          etcd.Kvs := etcd.range key opts (etcd.store c) |},
   (etcd.transport (etcd.log (etcd.CallGet key opts) c)).2).
Proof.
  intros Hok. unfold etcd.Get.
  pose proof (transport_log (etcd.CallGet key opts) c) as Hl.
  pose proof (transport_store (etcd.log (etcd.CallGet key opts) c)) as (Hs & Hr & _).
  destruct (etcd.transport (etcd.log (etcd.CallGet key opts) c)) as [f c'].
  simpl in *. rewrite Hok in Hl. subst f. rewrite Hs, Hr. reflexivity.
Qed.

(** What [Get] returns, by the transport and the entry of the key. *)
Lemma Get_result (key : string) (w : World) :
  value (Get key w) =
  Some match (etcd.transport (client w)).1 with
       | Some e => ([], Some (GetFailure key e))
       | None =>
           match etcd.store (client w) !! key with
           | None => ([], Some (NotFound key))
           | Some [] => ([], Some (Empty key))
           | Some (b :: v) => (b :: v, None)
           end
       end.
Proof.
  unfold Get, get, bind, on_client, etcd.Get.
  pose proof (transport_log (etcd.CallGet key []) (client w)) as Hl.
  pose proof (transport_store (etcd.log (etcd.CallGet key []) (client w))) as (Hs & _).
  destruct (etcd.transport (etcd.log (etcd.CallGet key []) (client w))) as [f c'].
  simpl in Hl, Hs. rewrite <- Hl.
  destruct f as [e|]; simpl; [reflexivity|].
  rewrite getValue_cases. simpl. unfold etcd.range. simpl. rewrite Hs. simpl.
  destruct (etcd.store (client w) !! key) as [[|b v]|]; reflexivity.
Qed.

Lemma healthy_transport (n : nat) (c : etcd.Client) :
  etcd.healthy (S n) c = true ->
  (etcd.transport c).1 = None /\ etcd.healthy n (etcd.transport c).2 = true.
Proof.
  unfold etcd.healthy, etcd.transport.
  destruct (etcd.faults c) as [|f rest] eqn:E; simpl.
  - intros _. rewrite E. destruct n; auto.
  - destruct f; [discriminate|]. auto.
Qed.

(** C5. [Get] returns, and has four outcomes, decided by the transport and
    by the entries of the response: a failed read gives the wrapped
    transport error; a read that goes through gives the not-exist error
    when the key has no entry, the empty-value error when the value of its
    entry has length zero, and otherwise the stored value with a nil
    error.  [getValue] decides the same way on any response.  The two
    errors of a read that went through differ from each other and from the
    transport error. *)
Theorem Get_outcomes (key : string) (w : World) :
  match (etcd.transport (client w)).1 with
  | Some e => value (Get key w) = Some ([], Some (GetFailure key e))
  | None =>
      match etcd.store (client w) !! key with
      | None => value (Get key w) = Some ([], Some (NotFound key))
      | Some [] => value (Get key w) = Some ([], Some (Empty key))
      | Some (b :: v) => value (Get key w) = Some (b :: v, None)
      end
  end
  /\ (forall resp : etcd.GetResponse,
        match etcd.Kvs resp with
        | [] => getValue key resp = ([], Some (NotFound key))
        | firstkv :: _ =>
            match etcd.Value firstkv with
            | [] => getValue key resp = ([], Some (Empty key))
            | b :: v => getValue key resp = (b :: v, None)
            end
        end)
  /\ NotFound key <> Empty key
  /\ (forall e, GetFailure key e <> NotFound key /\ GetFailure key e <> Empty key).
Proof.
  split; [|split; [|split; [apply NotFound_neq_Empty | intros e; apply GetFailure_neq]]].
  - rewrite Get_result.
    destruct (etcd.transport (client w)).1; [reflexivity|].
    destruct (etcd.store (client w) !! key) as [[|b v]|]; reflexivity.
  - intros resp. rewrite getValue_cases.
    destruct (etcd.Kvs resp) as [|kv kvs]; [reflexivity|].
    destruct (etcd.Value kv); reflexivity.
Qed.

(** What [Put] does when the call goes through. *)
Lemma Put_result (key : string) (val : list byte) (w : World) :
  (etcd.transport (client w)).1 = None ->
  value (Put key val w) = Some None /\
  etcd.store (client (world (Put key val w))) = <[key := val]> (etcd.store (client w)) /\
  etcd.faults (client (world (Put key val w))) = tail (etcd.faults (client w)).
Proof.
  intros Hok. unfold Put, bind, on_client, etcd.Put.
  pose proof (transport_log (etcd.CallPut key (string_of_list_byte val)) (client w)) as Hl.
  pose proof (transport_store (etcd.log (etcd.CallPut key (string_of_list_byte val)) (client w)))
    as (Hs & _ & _ & _ & Hf).
  destruct (etcd.transport (etcd.log _ (client w))) as [f c'].
  simpl in Hl, Hs, Hf. rewrite Hok in Hl. subst f. simpl.
  rewrite Hs, Hf, list_byte_of_string_of_list_byte. auto.
Qed.

(** C10. [Put] takes a value of length zero without error; the key then
    has an entry in the store, and the [Get] that follows returns the
    empty-value error and no value. *)
Theorem Put_empty_then_Get (key : string) (w : World) :
  etcd.healthy 2 (client w) = true ->
  value (Put key [] w) = Some None /\
  etcd.store (client (world (Put key [] w))) !! key = Some [] /\
  value (Get key (world (Put key [] w))) = Some ([], Some (Empty key)).
Proof.
  intros H. apply healthy_transport in H as [H1 H2].
  destruct (Put_result key [] w H1) as (Hr & Hs & Hf).
  split; [exact Hr|]. split.
  - rewrite Hs. apply lookup_insert_eq.
  - rewrite Get_result.
    assert ((etcd.transport (client (world (Put key [] w)))).1 = None) as ->.
    { pose proof (transport_store (client w)) as (_ & _ & _ & _ & Hf').
      unfold etcd.healthy in H2. rewrite Hf' in H2. rewrite <- Hf in H2.
      unfold etcd.transport.
      destruct (etcd.faults (client (world (Put key [] w)))) as [|f r]; [reflexivity|].
      simpl in H2. destruct f; [discriminate|reflexivity]. }
    rewrite Hs, lookup_insert_eq. reflexivity.
Qed.

(** C6. [DeleteWithValue] returns, after one call on the client, a
    transaction that compares the value of the key with the expected value
    and deletes the key.  When the call fails in transport the result is
    [false] with that error and the store is as before.  When it goes
    through the error is nil, the result is [true] exactly when the key
    has an entry whose value is the expected one, the key is deleted in
    that case and the store is as before otherwise. *)
Theorem DeleteWithValue_outcomes (key : string) (value' : list byte) (w : World) :
  exists (succeeded : bool) (err : option error),
  let w' := world (DeleteWithValue key value' w) in
  value (DeleteWithValue key value' w) = Some (succeeded, err)
  /\ etcd.calls (client w') =
      (etcd.calls (client w) ++
       [etcd.CallTxn [etcd.CompareValueEqual key (string_of_list_byte value')]
                     [etcd.OpDelete key]])%list
  /\ match (etcd.transport (client w)).1 with
     | Some e =>
         succeeded = false /\ err = Some e
         /\ etcd.store (client w') = etcd.store (client w)
     | None =>
         err = None
         /\ (succeeded = true <-> etcd.store (client w) !! key = Some value')
         /\ etcd.store (client w') =
              (if succeeded then delete key (etcd.store (client w))
               else etcd.store (client w))
     end.
Proof.
  clear newHeartbeat grantKeepAliveLease heartbeat_PutIfNotExist keepAlive.
  unfold DeleteWithValue, bind, on_client, etcd.Txn.
  set (call := etcd.CallTxn _ _).
  pose proof (transport_log call (client w)) as Hl.
  pose proof (transport_store (etcd.log call (client w))) as (Hs & _ & Hc & _).
  destruct (etcd.transport (etcd.log call (client w))) as [f c'].
  simpl in Hl, Hs, Hc. rewrite <- Hl.
  destruct f as [e|]; simpl.
  - exists false, (Some e). rewrite Hs, Hc. auto.
  - rewrite Hs, list_byte_of_string_of_list_byte.
    destruct (etcd.store (client w) !! key) as [stored|] eqn:Hk; simpl.
    + rewrite andb_true_r. case_bool_decide as Hd; simpl.
      * subst stored. exists true, None. simpl. rewrite Hs. tauto.
      * exists false, None. simpl. rewrite Hc, Hs. repeat split; try congruence.
    + exists false, None. simpl. rewrite Hc, Hs. repeat split; try congruence.
Qed.

(** *** Sends under a schedule *)

Lemma relayEvents_notifyAll (ech : WatchEventChan) (events : list etcd.Event) (w : World) :
  relayEvents ech events w = notifyAll ech (map convert events) w.
Proof.
  revert w. induction events as [|ev events IH]; intros w; [reflexivity|].
  simpl. unfold bind. destruct (notifyWatchEvent ech (convert ev) w) as [ok w'|w'];
    [|reflexivity].
  destruct ok; simpl; [apply IH | reflexivity].
Qed.

Lemma notifyEntries_notifyAll (ch : WatchEventChan) (kvs : list etcd.KeyValue) (w : World) :
  notifyEntries ch kvs w = notifyAll ch (map entry_event kvs) w.
Proof.
  revert w. induction kvs as [|kv kvs IH]; intros w; [reflexivity|].
  simpl. unfold bind. fold (entry_event kv).
  destruct (notifyWatchEvent ch (entry_event kv) w) as [ok w'|w']; [|reflexivity].
  destruct ok; simpl; [apply IH | reflexivity].
Qed.

Lemma notifyAll_app (ch : WatchEventChan) (a b : list Event) (w : World) :
  notifyAll ch (a ++ b) w =
  (let* ok := notifyAll ch a in
   if negb ok then ret false else notifyAll ch b) w.
Proof.
  revert w. induction a as [|e a IH]; intros w; [reflexivity|].
  simpl. unfold bind. destruct (notifyWatchEvent ch e w) as [ok w'|w']; [|reflexivity].
  destruct ok; simpl; [|reflexivity].
  rewrite IH. reflexivity.
Qed.

Lemma relayResponses_notifyAll (ech : WatchEventChan) (wc : etcd.WatchChan) (w : World) :
  relayResponses ech wc w = notifyAll ech (stream_events wc) w.
Proof.
  revert w. induction wc as [|r wc IH]; intros w; [reflexivity|].
  change (stream_events (r :: wc)) with (response_events r ++ stream_events wc)%list.
  rewrite notifyAll_app. unfold response_events. cbn [relayResponses]. unfold bind.
  rewrite notifyAll_app. unfold bind.
  destruct (etcd.Err r) as [err|].
  - cbn [notifyAll]. unfold bind.
    destruct (notifyWatchEvent ech (errEvent err) w) as [ok w'|w']; [|reflexivity].
    destruct ok; cbn [negb ret]; [|reflexivity].
    rewrite relayEvents_notifyAll.
    destruct (notifyAll ech (map convert (etcd.Events r)) w') as [ok w''|w''];
      [|reflexivity].
    destruct ok; cbn [negb ret]; [apply IH | reflexivity].
  - cbn [notifyAll negb ret]. rewrite relayEvents_notifyAll.
    destruct (notifyAll ech (map convert (etcd.Events r)) w) as [ok w''|w''];
      [|reflexivity].
    destruct ok; cbn [negb ret]; [apply IH | reflexivity].
Qed.

(** The sends of [notifyAll] on an open channel that the caller holds:
    none blocks, as many events are sent as the schedule lets through, in
    order, and nothing else of the world changes. *)
Lemma notifyAll_spec (ech : WatchEventChan) (evs : list Event) :
  forall (w : World) (c : Chan Event),
  echans w !! ech = Some c -> closes c = 0%nat -> held c = true ->
  let r := notifyAll ech evs w in
  value r = Some (Nat.eqb (wins (sched w) (length evs)) (length evs))
  /\ sched (world r) = remaining (sched w) (length evs)
  /\ echans (world r) !! ech =
       Some {| cap := cap c;
               sent := sent c ++ take (wins (sched w) (length evs)) evs;
               closes := 0; held := true |}
  /\ length (echans (world r)) = length (echans w)
  /\ client (world r) = client w /\ cchans (world r) = cchans w
  /\ goroutines (world r) = goroutines w /\ panicked (world r) = panicked w.
Proof.
  induction evs as [|e evs IH]; intros w c Hc Ho Hh.
  - simpl. rewrite app_nil_r. destruct c as [cp st cl hd]. simpl in *. subst cl hd.
    repeat split; auto.
  - assert (Hlt : (ech < length (echans w))%nat) by (eapply lookup_lt_Some; eauto).
    assert (Hcan : forall s, can_send ech (with_sched s w) = true).
    { intros s. unfold can_send. simpl. rewrite Hc. unfold ready. rewrite Hh. reflexivity. }
    assert (Hsend : forall s,
      let w1 := send_echan ech e (with_sched s w) in
      echans w1 !! ech = Some (chan_send e c) /\ sched w1 = s
      /\ length (echans w1) = length (echans w)
      /\ client w1 = client w /\ cchans w1 = cchans w
      /\ goroutines w1 = goroutines w /\ panicked w1 = panicked w).
    { intros s. unfold send_echan. simpl. rewrite Hc. unfold is_open. rewrite Ho. simpl.
      rewrite list_lookup_insert_eq by exact Hlt. rewrite length_insert. repeat split. }
    assert (Hw : with_sched (sched w) w = w) by (destruct w; reflexivity).
    cbn [notifyAll length wins remaining]. unfold bind.
    unfold notifyWatchEvent.
    destruct (sched w) as [|b s] eqn:Hs.
    + (* the schedule is used up: every send runs *)
      destruct (Hsend []) as (H1 & H2 & H3 & H4 & H5 & H6 & H7).
      specialize (Hcan []). rewrite Hw in *. rewrite Hcan. cbn [negb].
      specialize (IH _ _ H1 Ho Hh). cbn zeta in IH.
      rewrite H2 in IH.
      destruct IH as (I1 & I2 & I3 & I4 & I5 & I6 & I7 & I8).
      rewrite I1, I2, I3, I4, I5, I6, I7, I8.
      assert (Hw0 : forall n, wins [] n = n) by (destruct n; reflexivity).
      assert (Hl0 : forall n, remaining [] n = []) by (destruct n; reflexivity).
      rewrite Hw0, Hl0, Nat.eqb_refl, firstn_all. simpl.
      rewrite Nat.eqb_refl, firstn_all, <- app_assoc. simpl.
      repeat split; auto.
    + destruct b.
      * destruct (Hsend s) as (H1 & H2 & H3 & H4 & H5 & H6 & H7).
        assert (Hcan' : can_send ech w = true).
        { unfold can_send. rewrite Hc. unfold ready. rewrite Hh. reflexivity. }
        rewrite Hcan'. cbn [negb].
        specialize (IH _ _ H1 Ho Hh). cbn zeta in IH. rewrite H2 in IH.
        destruct IH as (I1 & I2 & I3 & I4 & I5 & I6 & I7 & I8).
        rewrite I1, I2, I3, I4, I5, I6, I7, I8. simpl.
        rewrite <- app_assoc. simpl. repeat split; auto.
      * simpl. rewrite app_nil_r. destruct c as [cp st cl hd]. simpl in *. subst cl hd.
        repeat split; auto.
Qed.

Lemma close_echan_spec (ech : WatchEventChan) (w : World) (c : Chan Event) :
  echans w !! ech = Some c -> closes c = 0%nat ->
  let r := close_echan ech w in
  value r = Some tt
  /\ echans (world r) !! ech = Some (chan_close c)
  /\ sched (world r) = sched w
  /\ length (echans (world r)) = length (echans w)
  /\ client (world r) = client w /\ cchans (world r) = cchans w
  /\ goroutines (world r) = goroutines w /\ panicked (world r) = panicked w.
Proof.
  intros Hc Ho. unfold close_echan. rewrite Hc. unfold is_open. rewrite Ho. simpl.
  rewrite list_lookup_insert_eq by (eapply lookup_lt_Some; eauto).
  rewrite length_insert. repeat split.
Qed.

Lemma close_cchan_spec (ch : ClosedChan) (w : World) (c : Chan Closed) :
  cchans w !! ch = Some c -> closes c = 0%nat ->
  let r := close_cchan ch w in
  value r = Some tt
  /\ cchans (world r) !! ch = Some (chan_close c)
  /\ sched (world r) = sched w
  /\ length (cchans (world r)) = length (cchans w)
  /\ client (world r) = client w /\ echans (world r) = echans w
  /\ goroutines (world r) = goroutines w /\ panicked (world r) = panicked w.
Proof.
  intros Hc Ho. unfold close_cchan. rewrite Hc. unfold is_open. rewrite Ho. simpl.
  rewrite list_lookup_insert_eq by (eapply lookup_lt_Some; eauto).
  rewrite length_insert. repeat split.
Qed.

(** *** The relay *)

(** [handleWatchEvent] is: send the events of the stream and the closing
    error until a send loses, then close the channel. *)
Lemma handleWatchEvent_notifyAll (wc : etcd.WatchChan) (ech : WatchEventChan) (w : World) :
  handleWatchEvent wc ech w =
  (let* _ := notifyAll ech (relay_events wc) in close_echan ech) w.
Proof.
  unfold handleWatchEvent, relay_events, bind.
  rewrite notifyAll_app, relayResponses_notifyAll. unfold bind.
  destruct (notifyAll ech (stream_events wc) w) as [ended w'|w']; [|reflexivity].
  destruct ended; cbn [negb ret notifyAll]; [|reflexivity].
  unfold bind, closed_event.
  destruct (notifyWatchEvent ech (errEvent "watch is closed") w') as [ok w''|w''];
    [|reflexivity].
  destruct ok; reflexivity.
Qed.

Lemma handleWatchEvent_spec (wc : etcd.WatchChan) (ech : WatchEventChan)
    (w : World) (c : Chan Event) :
  echans w !! ech = Some c -> closes c = 0%nat -> held c = true ->
  let r := handleWatchEvent wc ech w in
  let n := length (relay_events wc) in
  value r = Some tt
  /\ echans (world r) !! ech =
       Some {| cap := cap c;
               sent := sent c ++ take (wins (sched w) n) (relay_events wc);
               closes := 1; held := true |}
  /\ sched (world r) = remaining (sched w) n
  /\ length (echans (world r)) = length (echans w)
  /\ client (world r) = client w /\ cchans (world r) = cchans w
  /\ goroutines (world r) = goroutines w /\ panicked (world r) = panicked w.
Proof.
  intros Hc Ho Hh. cbn zeta. rewrite handleWatchEvent_notifyAll. unfold bind.
  destruct (notifyAll_spec ech (relay_events wc) w c Hc Ho Hh)
    as (N1 & N2 & N3 & N4 & N5 & N6 & N7 & N8).
  destruct (notifyAll ech (relay_events wc) w) as [ok w'|w']; [|discriminate N1].
  cbn [world] in *.
  destruct (close_echan_spec ech _ _ N3 eq_refl)
    as (C0 & C1 & C2 & C3 & C4 & C5 & C6 & C7).
  rewrite C0, C1, C2, C3, C4, C5, C6, C7, N2, N4, N5, N6, N7, N8.
  repeat split.
Qed.

Lemma wins_le (s : list bool) (n : nat) : (wins s n <= n)%nat.
Proof.
  revert s. induction n as [|n IH]; intros s; simpl; [lia|].
  destruct s as [|[] s]; [lia| |lia]. specialize (IH s). lia.
Qed.

Lemma wins_all_true (s : list bool) (n : nat) :
  forallb (fun b => b) s = true -> wins s n = n.
Proof.
  revert s. induction n as [|n IH]; intros s H; simpl; [reflexivity|].
  destruct s as [|[] s]; [reflexivity| |discriminate].
  simpl in H. rewrite IH; auto.
Qed.

(** C1 (amended). On an open channel that the caller holds, the relay
    runs to its end, closes the channel exactly once, when it exits, and
    does not panic.  What it has sent by then is the start, as long as the
    schedule lets sends through, of: for each response of the raw stream
    its error, if it has one, followed by its events, and after the last
    response the closing error.  So the closing error, when it is sent, is
    the last event of the channel; when no send loses against the context
    everything is sent, and an error relayed from a response is followed
    by what comes after it in that list. *)
Theorem handleWatchEvent_delivers (wc : etcd.WatchChan) (ech : WatchEventChan)
    (w : World) (c : Chan Event) :
  echans w !! ech = Some c -> closes c = 0%nat -> held c = true ->
  let r := handleWatchEvent wc ech w in
  let n := wins (sched w) (length (relay_events wc)) in
  value r = Some tt
  /\ echans (world r) !! ech =
       Some {| cap := cap c;
               sent := sent c ++ take n (stream_events wc ++ [closed_event]);
               closes := 1; held := true |}
  /\ panicked (world r) = panicked w
  /\ (n <= length (stream_events wc) \/ n = S (length (stream_events wc)))%nat
  /\ (forallb (fun b => b) (sched w) = true ->
      echans (world r) !! ech =
        Some {| cap := cap c;
                sent := sent c ++ stream_events wc ++ [closed_event];
                closes := 1; held := true |}).
Proof.
  intros Hc Ho Hh. cbn zeta.
  destruct (handleWatchEvent_spec wc ech w c Hc Ho Hh)
    as (H0 & H1 & _ & _ & _ & _ & _ & H7).
  split; [exact H0|]. split; [exact H1|]. split; [exact H7|]. split.
  - pose proof (wins_le (sched w) (length (relay_events wc))) as Hle.
    unfold relay_events in *. rewrite length_app in *. simpl in *. lia.
  - intros Hall. rewrite H1. rewrite wins_all_true by exact Hall.
    unfold relay_events. rewrite firstn_all. reflexivity.
Qed.

(** *** Setting up a watch *)

Lemma opened_facts (key : string) (go wo : list etcd.OpOption) (c : etcd.Client) :
  etcd.store (opened key go wo c) = etcd.store c
  /\ etcd.revision (opened key go wo c) = etcd.revision c
  /\ etcd.calls (opened key go wo c) =
       (etcd.calls c ++ [etcd.CallGet key go; etcd.CallWatch key wo])%list
  /\ etcd.feed (opened key go wo c) = etcd.feed c.
Proof.
  unfold opened.
  pose proof (transport_store (etcd.log (etcd.CallGet key go) c)) as (Hs & Hr & Hc & Hf & _).
  simpl in *. rewrite Hs, Hr, Hc, Hf, <- app_assoc. repeat split.
Qed.

Lemma lookup_new {A : Type} (l : list A) (c : A) :
  (l ++ [c])%list !! length l = Some c.
Proof. apply list_lookup_middle. reflexivity. Qed.

Lemma insert_new {A : Type} (l : list A) (c c' : A) :
  <[length l := c']> (l ++ [c])%list = (l ++ [c'])%list.
Proof. induction l as [|x l IH]; simpl; [reflexivity|]. f_equal. exact IH. Qed.

Ltac step_world :=
  repeat first
    [ rewrite lookup_new
    | rewrite insert_new
    | progress cbn [echans with_echans with_goroutines with_client with_sched
                    world value client sched cchans panicked goroutines
                    is_open mkChan chan_send chan_close chan_hand_over
                    closes held sent cap ready length app
                    Nat.eqb Nat.ltb Nat.leb orb negb] ].

(** [Watch] when the read goes through: it never blocks, for its channel
    has room for the one initial event. *)
Lemma Watch_setup (key : string) (w : World) :
  (etcd.transport (client w)).1 = None ->
  let opts := [etcd.WithRev (Int64.add (etcd.revision (client w)) 1)] in
  let wch := etcd.feed (client w) key opts in
  let ch := length (echans w) in
  let initial := Watch_initial key (etcd.store (client w)) in
  let k := wins (sched w) (length initial) in
  let r := Watch key w in
  client (world r) = opened key [] opts (client w)
  /\ sched (world r) = remaining (sched w) (length initial)
  /\ cchans (world r) = cchans w /\ panicked (world r) = panicked w
  /\ (if Nat.eqb k (length initial)
      then value r = Some (Some ch, None)
           /\ echans (world r) !! ch =
                Some {| cap := 1; sent := initial; closes := 0; held := true |}
           /\ goroutines (world r) = (goroutines w ++ [GoHandleWatchEvent wch ch])%list
      else value r = Some (None, Some notify_error)
           /\ echans (world r) !! ch =
                Some {| cap := 1; sent := []; closes := 1; held := false |}
           /\ goroutines (world r) = goroutines w).
Proof.
  intros Hok. cbn zeta. unfold Watch, get, bind, on_client.
  rewrite (etcd_Get_ok key [] _ Hok). cbn [ret etcd.Header etcd.Revision etcd.Kvs].
  unfold etcd.Watch. cbn [client with_client].
  pose proof (transport_store (etcd.log (etcd.CallGet key []) (client w)))
    as (_ & _ & _ & Hf & _).
  cbn [etcd.feed etcd.log] in Hf. cbn [etcd.feed etcd.log]. rewrite Hf.
  fold (opened key [] [etcd.WithRev (Int64.add (etcd.revision (client w)) 1)] (client w)).
  unfold make_echan. cbn [echans with_client].
  unfold Watch_initial, etcd.range. cbn [etcd.has_prefix_opt existsb].
  destruct (etcd.store (client w) !! key) as [[|b v]|];
    cbn [length Nat.eqb negb etcd.Value etcd.entry snd fst wins remaining ret];
    unfold notifyWatchEvent, can_send, send_echan, close_echan, go, hand_over, ret.
  - step_world. repeat split; reflexivity.
  - step_world. destruct (sched w) as [|[] s] eqn:Hs;
      step_world; rewrite ?Hs; step_world; repeat split; reflexivity.
  - step_world. repeat split; reflexivity.
Qed.

(** [WatchPrefix] when the read goes through.  With no entry under the
    prefix it returns the channel.  With an entry it enters the [select]
    of the first initial event on a channel that has no buffer and that
    nobody else holds yet: the send cannot proceed, so the call returns
    the error if the context is cancelled and blocks for ever if not. *)
Lemma WatchPrefix_setup (prefixKey : string) (w : World) :
  (etcd.transport (client w)).1 = None ->
  let getopts := [etcd.WithPrefix; etcd.WithSerializable] in
  let options := [etcd.WithRev (Int64.add (etcd.revision (client w)) 1);
                  etcd.WithPrefix; etcd.WithPrevKV] in
  let wch := etcd.feed (client w) prefixKey options in
  let ch := length (echans w) in
  let initial := WatchPrefix_initial prefixKey (etcd.store (client w)) in
  let r := WatchPrefix prefixKey w in
  client (world r) = opened prefixKey getopts options (client w)
  /\ cchans (world r) = cchans w /\ panicked (world r) = panicked w
  /\ match initial with
     | [] =>
         value r = Some (Some ch, None)
         /\ echans (world r) !! ch =
              Some {| cap := 0; sent := []; closes := 0; held := true |}
         /\ goroutines (world r) = (goroutines w ++ [GoHandleWatchEvent wch ch])%list
         /\ sched (world r) = sched w
     | _ :: _ =>
         match sched w with
         | false :: rest =>
             value r = Some (None, Some notify_error)
             /\ echans (world r) !! ch =
                  Some {| cap := 0; sent := []; closes := 1; held := false |}
             /\ goroutines (world r) = goroutines w
             /\ sched (world r) = rest
         | _ =>
             value r = None
             /\ echans (world r) !! ch =
                  Some {| cap := 0; sent := []; closes := 0; held := false |}
             /\ goroutines (world r) = goroutines w
         end
     end.
Proof.
  intros Hok. cbn zeta. unfold WatchPrefix, bind, on_client.
  rewrite (etcd_Get_ok prefixKey _ _ Hok). cbn [ret etcd.Header etcd.Revision etcd.Kvs].
  unfold etcd.Watch. cbn [client with_client].
  pose proof (transport_store
                (etcd.log (etcd.CallGet prefixKey [etcd.WithPrefix; etcd.WithSerializable])
                   (client w))) as (_ & _ & _ & Hf & _).
  cbn [etcd.feed etcd.log] in Hf. cbn [etcd.feed etcd.log]. rewrite Hf.
  fold (opened prefixKey [etcd.WithPrefix; etcd.WithSerializable]
          [etcd.WithRev (Int64.add (etcd.revision (client w)) 1);
           etcd.WithPrefix; etcd.WithPrevKV] (client w)).
  unfold make_echan. cbn [echans with_client].
  unfold WatchPrefix_initial.
  destruct (etcd.range prefixKey _ (etcd.store (client w))) as [|kv kvs];
    cbn [length Nat.eqb negb map notifyEntries ret]; unfold bind;
    unfold notifyWatchEvent, can_send, send_echan, close_echan, go, hand_over, ret.
  - step_world. repeat split; reflexivity.
  - step_world. destruct (sched w) as [|[] s] eqn:Hs;
      step_world; rewrite ?Hs; step_world; repeat split; reflexivity.
Qed.

Lemma WatchPrefix_initial_entries (prefixKey : string) (m : gmap string (list byte)) :
  WatchPrefix_initial prefixKey m =
  (fun kv => modifyEvent kv.1 kv.2) <$>
    map_to_list (filter (fun kv => Is_true (String.prefix prefixKey kv.1)) m).
Proof.
  unfold WatchPrefix_initial, etcd.range. cbn [etcd.has_prefix_opt existsb orb].
  induction (map_to_list _) as [|[k v] l IH]; [reflexivity|].
  change (entry_event (etcd.entry (k, v)) :: map entry_event (etcd.entry <$> l) =
          modifyEvent k v :: ((fun kv => modifyEvent kv.1 kv.2) <$> l)).
  f_equal; [|exact IH].
  unfold entry_event, etcd.entry. cbn [etcd.Key etcd.Value fst snd].
  rewrite string_of_list_byte_of_string. reflexivity.
Qed.

(** The initial events of [WatchPrefix]: one for each entry of the store
    whose key starts with the prefix, and no other. *)
Lemma WatchPrefix_initial_spec (prefixKey : string) (m : gmap string (list byte)) :
  NoDup (Key <$> WatchPrefix_initial prefixKey m)
  /\ (forall e, e ∈ WatchPrefix_initial prefixKey m <->
                exists k v, e = modifyEvent k v /\ m !! k = Some v
                            /\ String.prefix prefixKey k = true).
Proof.
  rewrite WatchPrefix_initial_entries. split.
  - rewrite <- list_fmap_compose.
    replace (Key ∘ (fun kv : string * list byte => modifyEvent kv.1 kv.2))
      with (@fst string (list byte)) by reflexivity.
    apply NoDup_fst_map_to_list.
  - intros e. rewrite list_elem_of_fmap. split.
    + intros ([k v] & -> & Hin). exists k, v.
      apply elem_of_map_to_list, map_lookup_filter_Some in Hin as [Hm Hp].
      simpl in Hp. apply Is_true_eq_true in Hp. auto.
    + intros (k & v & -> & Hm & Hp). exists (k, v). split; [reflexivity|].
      apply elem_of_map_to_list, map_lookup_filter_Some. split; [exact Hm|].
      simpl. rewrite Hp. exact I.
Qed.

Lemma WatchPrefix_initial_nil (prefixKey : string) (m : gmap string (list byte)) :
  (forall k v, m !! k = Some v -> String.prefix prefixKey k = false) ->
  WatchPrefix_initial prefixKey m = [].
Proof.
  intros Hno. destruct (WatchPrefix_initial_spec prefixKey m) as [_ He].
  destruct (WatchPrefix_initial prefixKey m) as [|e l]; [reflexivity|].
  destruct (proj1 (He e) ltac:(left)) as (k & v & _ & Hm & Hp).
  rewrite (Hno k v Hm) in Hp. discriminate Hp.
Qed.

Lemma WatchPrefix_initial_cons (prefixKey k : string) (v : list byte)
    (m : gmap string (list byte)) :
  m !! k = Some v -> String.prefix prefixKey k = true ->
  exists e l, WatchPrefix_initial prefixKey m = e :: l.
Proof.
  intros Hm Hp. destruct (WatchPrefix_initial_spec prefixKey m) as [_ He].
  assert (Hin : modifyEvent k v ∈ WatchPrefix_initial prefixKey m).
  { apply He. exists k, v. auto. }
  destruct (WatchPrefix_initial prefixKey m) as [|e l]; [inversion Hin | eauto].
Qed.

(** X15. With an entry under the prefix, [WatchPrefix] never returns a
    channel: its first initial send cannot proceed, so it returns the
    error or blocks. *)
Lemma WatchPrefix_with_entries (prefixKey k : string) (v : list byte) (w : World) :
  (etcd.transport (client w)).1 = None ->
  etcd.store (client w) !! k = Some v -> String.prefix prefixKey k = true ->
  value (WatchPrefix prefixKey w) =
    match sched w with
    | false :: _ => Some (None, Some notify_error)
    | _ => None
    end
  /\ goroutines (world (WatchPrefix prefixKey w)) = goroutines w.
Proof.
  intros Hok Hm Hp.
  pose proof (WatchPrefix_setup prefixKey w Hok) as H. cbn zeta in H.
  destruct (WatchPrefix_initial_cons prefixKey k v _ Hm Hp) as (e & l & Hi).
  rewrite Hi in H. destruct H as (_ & _ & _ & H). revert H.
  destruct (sched w) as [|[] s]; intros H;
    (destruct H as (H1 & _ & H3 & _) || destruct H as (H1 & _ & H3)); auto.
Qed.

(** *** Revisions *)

Lemma Int64_add_one_neq (r : Z) : Int64.add r 1 <> r.
Proof.
  unfold Int64.add, Int64.wrap, Int64.modulus. intros H.
  pose proof (Z.mod_eq (r + 1 + 2 ^ 63) (2 ^ 64) ltac:(lia)) as Hm.
  change (2 ^ 64) with 18446744073709551616 in *.
  change (2 ^ 63) with 9223372036854775808 in *. lia.
Qed.

Lemma Int64_add_one_exact (r : Z) :
  Int64.in_range r -> r < Int64.max_int -> Int64.add r 1 = r + 1.
Proof.
  unfold Int64.in_range, Int64.min_int, Int64.max_int, Int64.add, Int64.wrap,
    Int64.modulus.
  change (2 ^ 64) with 18446744073709551616.
  change (2 ^ 63) with 9223372036854775808.
  intros [Hlo Hhi] Hlt. rewrite Z.mod_small by lia. lia.
Qed.

(** *** The watch pipeline *)

(** C3 (amended). When the read goes through: for a key with a value of
    non-zero length whose initial send does not lose against the context,
    [Watch] returns a channel whose first event is the Modify event of the
    key and that value, and everything the relay sends comes after it; for
    a prefix under which the store has no entry, [WatchPrefix] returns a
    channel that carries what the relay sends and nothing before. *)
Theorem initial_events_first :
  (forall (key : string) (b : byte) (v : list byte) (w : World),
      (etcd.transport (client w)).1 = None ->
      etcd.store (client w) !! key = Some (b :: v) ->
      wins (sched w) 1 = 1%nat ->
      let ev := modifyEvent key (b :: v) in
      let wch := etcd.feed (client w) key
                   [etcd.WithRev (Int64.add (etcd.revision (client w)) 1)] in
      let ch := length (echans w) in
      let r := Watch key w in
      let relay := handleWatchEvent wch ch (world r) in
      value r = Some (Some ch, None)
      /\ echans (world r) !! ch =
           Some {| cap := 1; sent := [ev]; closes := 0; held := true |}
      /\ goroutines (world r) = (goroutines w ++ [GoHandleWatchEvent wch ch])%list
      /\ value relay = Some tt
      /\ echans (world relay) !! ch =
           Some {| cap := 1;
                   sent := ev :: take (wins (remaining (sched w) 1)
                                           (length (relay_events wch)))
                                   (relay_events wch);
                   closes := 1; held := true |})
  /\
  (forall (prefixKey : string) (w : World),
      (etcd.transport (client w)).1 = None ->
      (forall k v, etcd.store (client w) !! k = Some v ->
                   String.prefix prefixKey k = false) ->
      let wch := etcd.feed (client w) prefixKey
                   [etcd.WithRev (Int64.add (etcd.revision (client w)) 1);
                    etcd.WithPrefix; etcd.WithPrevKV] in
      let ch := length (echans w) in
      let r := WatchPrefix prefixKey w in
      let relay := handleWatchEvent wch ch (world r) in
      value r = Some (Some ch, None)
      /\ echans (world r) !! ch =
           Some {| cap := 0; sent := []; closes := 0; held := true |}
      /\ goroutines (world r) = (goroutines w ++ [GoHandleWatchEvent wch ch])%list
      /\ value relay = Some tt
      /\ echans (world relay) !! ch =
           Some {| cap := 0;
                   sent := take (wins (sched w) (length (relay_events wch)))
                             (relay_events wch);
                   closes := 1; held := true |}).
Proof.
  split.
  - intros key b v w Hok Hk Hw. cbn zeta.
    pose proof (Watch_setup key w Hok) as H. cbn zeta in H.
    unfold Watch_initial in H. rewrite Hk in H. cbn [length] in H.
    rewrite Hw in H. cbn [Nat.eqb] in H.
    destruct H as (_ & Hs & _ & _ & Hr & Hc & Hg).
    split; [exact Hr|]. split; [exact Hc|]. split; [exact Hg|].
    match goal with |- context [handleWatchEvent ?wc ?ch ?w0] =>
      destruct (handleWatchEvent_spec wc ch w0 _ Hc eq_refl eq_refl) as (Hv & Hh & _) end.
    split; [exact Hv|]. rewrite Hh, Hs. reflexivity.
  - intros prefixKey w Hok Hno. cbn zeta.
    pose proof (WatchPrefix_setup prefixKey w Hok) as H. cbn zeta in H.
    rewrite (WatchPrefix_initial_nil prefixKey _ Hno) in H.
    destruct H as (_ & _ & _ & Hr & Hc & Hg & Hs).
    split; [exact Hr|]. split; [exact Hc|]. split; [exact Hg|].
    match goal with |- context [handleWatchEvent ?wc ?ch ?w0] =>
      destruct (handleWatchEvent_spec wc ch w0 _ Hc eq_refl eq_refl) as (Hv & Hh & _) end.
    split; [exact Hv|]. rewrite Hh, Hs. reflexivity.
Qed.

(** C9. When the read goes through and the send of a synthesized event
    loses against the context, the setup is given up: [Watch] (whose key
    has a value of non-zero length, so that it has an event to send) and
    [WatchPrefix] (with an entry under the prefix, so that it has one)
    return the nil channel and the notify error, start no relay, and leave
    the channel they had made closed. *)
Theorem lost_initial_send_aborts :
  (forall (key : string) (b : byte) (v : list byte) (w : World) (rest : list bool),
      (etcd.transport (client w)).1 = None ->
      etcd.store (client w) !! key = Some (b :: v) ->
      sched w = false :: rest ->
      let r := Watch key w in
      value r = Some (None, Some notify_error)
      /\ goroutines (world r) = goroutines w
      /\ echans (world r) !! length (echans w) =
           Some {| cap := 1; sent := []; closes := 1; held := false |})
  /\
  (forall (prefixKey k : string) (v : list byte) (w : World) (rest : list bool),
      (etcd.transport (client w)).1 = None ->
      etcd.store (client w) !! k = Some v ->
      String.prefix prefixKey k = true ->
      sched w = false :: rest ->
      let r := WatchPrefix prefixKey w in
      value r = Some (None, Some notify_error)
      /\ goroutines (world r) = goroutines w
      /\ echans (world r) !! length (echans w) =
           Some {| cap := 0; sent := []; closes := 1; held := false |}).
Proof.
  split.
  - intros key b v w rest Hok Hk Hs. cbn zeta.
    pose proof (Watch_setup key w Hok) as H. cbn zeta in H.
    unfold Watch_initial in H. rewrite Hk, Hs in H. cbn [length wins Nat.eqb] in H.
    destruct H as (_ & _ & _ & _ & Hr & Hc & Hg). auto.
  - intros prefixKey k v w rest Hok Hk Hp Hs. cbn zeta.
    pose proof (WatchPrefix_setup prefixKey w Hok) as H. cbn zeta in H.
    destruct (WatchPrefix_initial_cons prefixKey k v _ Hk Hp) as (e & l & Hi).
    rewrite Hi, Hs in H.
    destruct H as (_ & _ & _ & Hr & Hc & Hg & _). auto.
Qed.

(** C2 (amended). [Watch] sends no initial event for a key whose value
    has length zero: when the read goes through it attempts no send,
    returns the channel with nothing on it and starts the relay.  The loop
    of [WatchPrefix] over the entries of its read has no such test: on a
    channel whose sends go through it sends a Modify event for every
    entry, with the empty value for an entry whose value has length
    zero. *)
Theorem empty_value_initial_event :
  (forall (key : string) (w : World),
      (etcd.transport (client w)).1 = None ->
      etcd.store (client w) !! key = Some [] ->
      let wch := etcd.feed (client w) key
                   [etcd.WithRev (Int64.add (etcd.revision (client w)) 1)] in
      let r := Watch key w in
      value r = Some (Some (length (echans w)), None)
      /\ echans (world r) !! length (echans w) =
           Some {| cap := 1; sent := []; closes := 0; held := true |}
      /\ sched (world r) = sched w
      /\ goroutines (world r) =
           (goroutines w ++ [GoHandleWatchEvent wch (length (echans w))])%list)
  /\
  (forall (ch : WatchEventChan) (kvs : list etcd.KeyValue) (kv : etcd.KeyValue)
          (w : World) (c : Chan Event),
      echans w !! ch = Some c -> closes c = 0%nat -> held c = true ->
      wins (sched w) (length kvs) = length kvs ->
      kv ∈ kvs -> etcd.Value kv = [] ->
      let r := notifyEntries ch kvs w in
      value r = Some true
      /\ echans (world r) !! ch =
           Some {| cap := cap c; sent := sent c ++ map entry_event kvs;
                   closes := 0; held := true |}
      /\ modifyEvent (string_of_list_byte (etcd.Key kv)) [] ∈ map entry_event kvs).
Proof.
  split.
  - intros key w Hok Hk. cbn zeta.
    pose proof (Watch_setup key w Hok) as H. cbn zeta in H.
    unfold Watch_initial in H. rewrite Hk in H. cbn [length wins Nat.eqb remaining] in H.
    destruct H as (_ & Hs & _ & _ & Hr & Hc & Hg). auto.
  - intros ch kvs kv w c Hc Ho Hh Hw Hin Hv. cbn zeta.
    rewrite notifyEntries_notifyAll.
    destruct (notifyAll_spec ch (map entry_event kvs) w c Hc Ho Hh) as (N1 & _ & N3 & _).
    rewrite length_map, Hw in N1, N3. rewrite Nat.eqb_refl in N1.
    rewrite <- (length_map entry_event kvs), firstn_all in N3.
    split; [exact N1|]. split; [exact N3|].
    apply list_elem_of_In, in_map_iff. exists kv. split.
    + unfold entry_event. rewrite Hv. reflexivity.
    + apply list_elem_of_In. exact Hin.
Qed.

(** C4. When the initial read goes through, with revision R in its
    header, [Watch] and [WatchPrefix] make two calls on the client,
    whether or not they go on to return a channel: the read, and the
    opening of the change stream with the option WithRev(R + 1), the sum
    being that of [int64].  The revision asked for is never R, and it is
    R + 1 for every R below the largest [int64]. *)
Theorem stream_opened_after_read (key : string) (w : World) :
  (etcd.transport (client w)).1 = None ->
  let R := etcd.revision (client w) in
  (exists resp, (etcd.Get key [] (client w)).1 = inl resp
                /\ etcd.Revision (etcd.Header resp) = R)
  /\ (exists resp, (etcd.Get key [etcd.WithPrefix; etcd.WithSerializable] (client w)).1
                   = inl resp
                   /\ etcd.Revision (etcd.Header resp) = R)
  /\ etcd.calls (client (world (Watch key w))) =
       (etcd.calls (client w) ++
        [etcd.CallGet key [];
         etcd.CallWatch key [etcd.WithRev (Int64.add R 1)]])%list
  /\ etcd.calls (client (world (WatchPrefix key w))) =
       (etcd.calls (client w) ++
        [etcd.CallGet key [etcd.WithPrefix; etcd.WithSerializable];
         etcd.CallWatch key [etcd.WithRev (Int64.add R 1);
                             etcd.WithPrefix; etcd.WithPrevKV]])%list
  /\ Int64.add R 1 <> R
  /\ (Int64.in_range R -> R < Int64.max_int -> Int64.add R 1 = R + 1).
Proof.
  intros Hok. cbn zeta.
  split; [|split]; [| |split; [|split; [|split]]].
  - rewrite (etcd_Get_ok key [] _ Hok). eexists. split; reflexivity.
  - rewrite (etcd_Get_ok key _ _ Hok). eexists. split; reflexivity.
  - destruct (Watch_setup key w Hok) as (Hc & _). rewrite Hc.
    apply opened_facts.
  - destruct (WatchPrefix_setup key w Hok) as (Hc & _). rewrite Hc.
    apply opened_facts.
  - apply Int64_add_one_neq.
  - apply Int64_add_one_exact.
Qed.

(** *** Keepalive *)

(** The keepalive task, stage by stage, from a world in which its channel
    is open: first [keepAlive] runs, on the client, and while it runs and
    when it has returned the channel is as it was; then the deferred
    close closes the channel; then the task has exited and does nothing
    more. *)
Lemma keepalive_task (h : heartbeat) (isElect : bool) (ch : ClosedChan)
    (w : World) (c : Chan Closed) :
  cchans w !! ch = Some c -> closes c = 0%nat ->
  let returned := step (Running (GoKeepAlive h isElect ch)) w in
  let exited := step (Deferred ch) (world returned) in
  value returned = Some (Deferred ch)
  /\ client (world returned) = keepAlive h isElect (client w)
  /\ cchans (world returned) = cchans w
  /\ value exited = Some Exited
  /\ cchans (world exited) !! ch =
       Some {| cap := cap c; sent := sent c; closes := 1; held := held c |}
  /\ client (world exited) = keepAlive h isElect (client w)
  /\ panicked (world exited) = panicked w
  /\ step Exited (world exited) = Done Exited (world exited)
  /\ run (GoKeepAlive h isElect ch) w = Done tt (world exited).
Proof.
  intros Hc Ho. cbn zeta. unfold run, bind.
  cbn [step]. unfold bind, on_client, ret. cbn [world value].
  set (w1 := with_client _ w).
  destruct (close_cchan_spec ch w1 c Hc Ho) as (C0 & C1 & _ & _ & C4 & _ & _ & C7).
  destruct (close_cchan ch w1) as [u w2|w2] eqn:E; [|discriminate C0].
  cbn [value world] in *. destruct u.
  rewrite C1, C4, C7. unfold chan_close. rewrite Ho.
  repeat (split; [reflexivity|]).
  cbn [step]. unfold bind, ret. rewrite E. reflexivity.
Qed.

(** C8. [Heartbeat] returns.  When the grant of the lease fails, it
    returns the nil channel and that error, makes no channel and starts no
    goroutine.  When it succeeds, it returns a new channel, open, and
    starts one goroutine, the keepalive task, and nothing else holds the
    channel for closing.  That task, from any world in which the channel
    is open, first runs [keepAlive]: the client is then as [keepAlive]
    leaves it and the channel is still open; only then does the deferred
    close run, after which the channel has been closed once, nothing has
    panicked and the task has exited, to do nothing more. *)
Theorem Heartbeat_outcomes (key : string) (value' : list byte) (ttl : Z) (w : World)
    (h' : heartbeat) (err : option error) (c' : etcd.Client) :
  grantKeepAliveLease (newHeartbeat key value' ttl) (client w) = ((h', err), c') ->
  let r := Heartbeat key value' ttl w in
  let ch := length (cchans w) in
  client (world r) = c' /\ echans (world r) = echans w
  /\ panicked (world r) = panicked w
  /\ match err with
     | Some e =>
         value r = Some (None, Some e)
         /\ cchans (world r) = cchans w
         /\ goroutines (world r) = goroutines w
     | None =>
         value r = Some (Some ch, None)
         /\ cchans (world r) = (cchans w ++ [mkChan 0])%list
         /\ goroutines (world r) = (goroutines w ++ [GoKeepAlive h' false ch])%list
         /\ (forall (w2 : World) (c : Chan Closed),
                cchans w2 !! ch = Some c -> closes c = 0%nat ->
                let returned := step (Running (GoKeepAlive h' false ch)) w2 in
                let exited := step (Deferred ch) (world returned) in
                value returned = Some (Deferred ch)
                /\ client (world returned) = keepAlive h' false (client w2)
                /\ cchans (world returned) = cchans w2
                /\ value exited = Some Exited
                /\ cchans (world exited) !! ch =
                     Some {| cap := cap c; sent := sent c; closes := 1; held := held c |}
                /\ client (world exited) = keepAlive h' false (client w2)
                /\ panicked (world exited) = panicked w2
                /\ step Exited (world exited) = Done Exited (world exited))
     end.
Proof.
  intros Hg. cbn zeta. unfold Heartbeat, bind, on_client. rewrite Hg.
  destruct err as [e|]; cbn -[run step].
  - repeat split; reflexivity.
  - do 6 (split; [reflexivity|]). intros w2 c Hc Ho.
    destruct (keepalive_task h' false (length (cchans w)) w2 c Hc Ho)
      as (K1 & K2 & K3 & K4 & K5 & K6 & K7 & K8 & _).
    repeat (split; [assumption|]). exact K8.
Qed.

(** C7. [PutIfNotExist] returns what the conditional put of the helper
    decides.  When the put reports that the key is held (not put, no
    error) the result is [false], the nil channel and the nil error, and
    no channel is made and no goroutine started; the same holds, with the
    error, when the put fails.  When the put succeeds the result is
    [true], a new open channel and the nil error, and one goroutine is
    started, the keepalive task.  That task, from any world in which the
    channel is open, first runs [keepAlive]: the client is then as
    [keepAlive] leaves it and the channel is still open; only then does
    the deferred close run, after which the channel has been closed once,
    nothing has panicked and the task has exited, to do nothing more. *)
Theorem PutIfNotExist_outcomes (key : string) (value' : list byte) (ttl : Z) (w : World)
    (h' : heartbeat) (success : bool) (err : option error) (c' : etcd.Client) :
  heartbeat_PutIfNotExist (newHeartbeat key value' ttl) (client w)
    = ((h', (success, err)), c') ->
  let r := PutIfNotExist key value' ttl w in
  let ch := length (cchans w) in
  client (world r) = c' /\ echans (world r) = echans w
  /\ panicked (world r) = panicked w
  /\ match err, success with
     | Some e, _ =>
         value r = Some (false, None, Some e)
         /\ cchans (world r) = cchans w
         /\ goroutines (world r) = goroutines w
     | None, false =>
         value r = Some (false, None, None)
         /\ cchans (world r) = cchans w
         /\ goroutines (world r) = goroutines w
     | None, true =>
         value r = Some (true, Some ch, None)
         /\ cchans (world r) = (cchans w ++ [mkChan 0])%list
         /\ goroutines (world r) = (goroutines w ++ [GoKeepAlive h' true ch])%list
         /\ (forall (w2 : World) (c : Chan Closed),
                cchans w2 !! ch = Some c -> closes c = 0%nat ->
                let returned := step (Running (GoKeepAlive h' true ch)) w2 in
                let exited := step (Deferred ch) (world returned) in
                value returned = Some (Deferred ch)
                /\ client (world returned) = keepAlive h' true (client w2)
                /\ cchans (world returned) = cchans w2
                /\ value exited = Some Exited
                /\ cchans (world exited) !! ch =
                     Some {| cap := cap c; sent := sent c; closes := 1; held := held c |}
                /\ client (world exited) = keepAlive h' true (client w2)
                /\ panicked (world exited) = panicked w2
                /\ step Exited (world exited) = Done Exited (world exited))
     end.
Proof.
  intros Hp. cbn zeta. unfold PutIfNotExist, bind, on_client. rewrite Hp.
  destruct err as [e|]; [|destruct success]; cbn -[run step].
  - repeat split; reflexivity.
  - do 6 (split; [reflexivity|]). intros w2 c Hc Ho.
    destruct (keepalive_task h' true (length (cchans w)) w2 c Hc Ho)
      as (K1 & K2 & K3 & K4 & K5 & K6 & K7 & K8 & _).
    repeat (split; [assumption|]). exact K8.
  - repeat split; reflexivity.
Qed.

(** ** Further properties of the file *)

(** *** The facade: how the operations compose *)

Lemma healthy_after (c c' : etcd.Client) :
  etcd.healthy 2 c = true -> etcd.faults c' = tail (etcd.faults c) ->
  (etcd.transport c').1 = None.
Proof.
  unfold etcd.healthy, etcd.transport. intros H Hf. rewrite Hf.
  destruct (etcd.faults c) as [|f [|g r]]; simpl in *; try reflexivity.
  destruct f; [discriminate|]. destruct g; [discriminate|]. reflexivity.
Qed.

Lemma string_length_append (a b : string) :
  String.length (a +:+ b) = (String.length a + String.length b)%nat.
Proof. induction a as [|ch a IH]; simpl; [reflexivity|]. rewrite IH. reflexivity. Qed.

(** What [Delete] does when the call goes through. *)
Lemma Delete_result (key : string) (w : World) :
  (etcd.transport (client w)).1 = None ->
  value (Delete key w) = Some None /\
  etcd.store (client (world (Delete key w))) = delete key (etcd.store (client w)) /\
  etcd.faults (client (world (Delete key w))) = tail (etcd.faults (client w)).
Proof.
  intros Hok. unfold Delete, bind, on_client, etcd.Delete.
  pose proof (transport_log (etcd.CallDelete key) (client w)) as Hl.
  pose proof (transport_store (etcd.log (etcd.CallDelete key) (client w)))
    as (Hs & _ & _ & _ & Hf).
  destruct (etcd.transport (etcd.log _ (client w))) as [f c'].
  simpl in Hl, Hs, Hf. rewrite Hok in Hl. subst f. rewrite Hs.
  destruct (etcd.store (client w) !! key) eqn:Hk; simpl; rewrite ?Hs, ?Hf.
  - auto.
  - rewrite delete_id by exact Hk. auto.
Qed.

(** What [DeleteWithValue] does when the call goes through. *)
Lemma DeleteWithValue_result (key : string) (val : list byte) (w : World) :
  (etcd.transport (client w)).1 = None ->
  let hit := bool_decide (etcd.store (client w) !! key = Some val) in
  value (DeleteWithValue key val w) = Some (hit, None) /\
  etcd.store (client (world (DeleteWithValue key val w))) =
    (if hit then delete key (etcd.store (client w)) else etcd.store (client w)) /\
  etcd.faults (client (world (DeleteWithValue key val w))) = tail (etcd.faults (client w)).
Proof.
  intros Hok. cbn zeta. unfold DeleteWithValue, bind, on_client, etcd.Txn.
  set (call := etcd.CallTxn _ _).
  pose proof (transport_log call (client w)) as Hl.
  pose proof (transport_store (etcd.log call (client w))) as (Hs & _ & _ & _ & Hf).
  destruct (etcd.transport (etcd.log call (client w))) as [f c'].
  simpl in Hl, Hs, Hf. rewrite Hok in Hl. subst f. simpl.
  rewrite Hs, list_byte_of_string_of_list_byte.
  destruct (etcd.store (client w) !! key) as [stored|] eqn:Hk; simpl.
  - rewrite andb_true_r.
    destruct (decide (stored = val)) as [->|Hne].
    + rewrite !bool_decide_eq_true_2 by reflexivity. simpl.
      rewrite ?Hs, ?Hf; auto.
    + rewrite (bool_decide_eq_false_2 (stored = val)) by exact Hne.
      rewrite (bool_decide_eq_false_2 (Some stored = Some val)) by congruence.
      simpl. rewrite ?Hs, ?Hf. auto.
  - rewrite ?Hs, ?Hf. auto.
Qed.

(** X1. A value of non-zero length that [Put] stored is what the next
    [Get] of the key returns, with a nil error, whatever the key held
    before. *)
Theorem Put_then_Get (key : string) (b : byte) (v : list byte) (w : World) :
  etcd.healthy 2 (client w) = true ->
  value (Put key (b :: v) w) = Some None /\
  value (Get key (world (Put key (b :: v) w))) = Some (b :: v, None).
Proof.
  intros H. pose proof (healthy_transport 1 _ H) as [H1 _].
  destruct (Put_result key (b :: v) w H1) as (Hr & Hs & Hf).
  split; [exact Hr|].
  rewrite Get_result, (healthy_after _ _ H Hf), Hs, lookup_insert_eq. reflexivity.
Qed.

(** X2. [Put] and [Delete] of a key leave what [Get] returns for any other
    key as it was. *)
Theorem Get_other_key (key key' : string) (val : list byte) (w : World) :
  key <> key' ->
  etcd.healthy 2 (client w) = true ->
  value (Get key' (world (Put key val w))) = value (Get key' w) /\
  value (Get key' (world (Delete key w))) = value (Get key' w).
Proof.
  intros Hne H. pose proof (healthy_transport 1 _ H) as [H1 _].
  destruct (Put_result key val w H1) as (_ & Hs & Hf).
  destruct (Delete_result key w H1) as (_ & Hs' & Hf').
  rewrite !Get_result, (healthy_after _ _ H Hf), (healthy_after _ _ H Hf'), H1.
  rewrite Hs, Hs', lookup_insert_ne, lookup_delete_ne by exact Hne. auto.
Qed.

(** X3. [Delete] returns a nil error whether or not the key has an entry,
    and the next [Get] of the key returns the not-exist error. *)
Theorem Delete_then_Get (key : string) (w : World) :
  etcd.healthy 2 (client w) = true ->
  value (Delete key w) = Some None /\
  value (Get key (world (Delete key w))) = Some ([], Some (NotFound key)).
Proof.
  intros H. pose proof (healthy_transport 1 _ H) as [H1 _].
  destruct (Delete_result key w H1) as (Hr & Hs & Hf).
  split; [exact Hr|].
  rewrite Get_result, (healthy_after _ _ H Hf), Hs, lookup_delete_eq. reflexivity.
Qed.

(** X4. When the call on the client fails, [Put] and [Delete] return the
    error of the client as it is (where [Get] wraps it), and the store is
    as before. *)
Theorem Put_Delete_failure (key : string) (val : list byte) (w : World) (e : error) :
  (etcd.transport (client w)).1 = Some e ->
  (value (Put key val w) = Some (Some e)
   /\ etcd.store (client (world (Put key val w))) = etcd.store (client w))
  /\ (value (Delete key w) = Some (Some e)
      /\ etcd.store (client (world (Delete key w))) = etcd.store (client w))
  /\ value (Get key w) = Some ([], Some (GetFailure key e))
  /\ GetFailure key e <> e.
Proof.
  intros Hf. split; [|split; [|split]].
  - unfold Put, bind, on_client, etcd.Put.
    pose proof (transport_log (etcd.CallPut key (string_of_list_byte val)) (client w)) as Hl.
    pose proof (transport_store (etcd.log (etcd.CallPut key (string_of_list_byte val))
                                   (client w))) as (Hs & _).
    destruct (etcd.transport (etcd.log _ (client w))) as [f c'].
    simpl in Hl, Hs. rewrite Hf in Hl. subst f. simpl. rewrite Hs. auto.
  - unfold Delete, bind, on_client, etcd.Delete.
    pose proof (transport_log (etcd.CallDelete key) (client w)) as Hl.
    pose proof (transport_store (etcd.log (etcd.CallDelete key) (client w))) as (Hs & _).
    destruct (etcd.transport (etcd.log _ (client w))) as [f c'].
    simpl in Hl, Hs. rewrite Hf in Hl. subst f. simpl. rewrite Hs. auto.
  - rewrite Get_result, Hf. reflexivity.
  - unfold GetFailure. intros Heq.
    apply (f_equal String.length) in Heq.
    rewrite !string_length_append in Heq. simpl in Heq. lia.
Qed.

(** X5. A [DeleteWithValue] that succeeds has deleted the key: the [Get]
    that follows returns the not-exist error, and a second
    [DeleteWithValue] of the key returns [false] with a nil error,
    whatever value it expects. *)
Theorem DeleteWithValue_once (key : string) (val val2 : list byte) (w : World) :
  etcd.healthy 2 (client w) = true ->
  etcd.store (client w) !! key = Some val ->
  let first := DeleteWithValue key val w in
  value first = Some (true, None)
  /\ value (Get key (world first)) = Some ([], Some (NotFound key))
  /\ value (DeleteWithValue key val2 (world first)) = Some (false, None).
Proof.
  intros H Hk. cbn zeta. pose proof (healthy_transport 1 _ H) as [H1 _].
  destruct (DeleteWithValue_result key val w H1) as (Hr & Hs & Hf). cbn zeta in Hr, Hs.
  rewrite bool_decide_eq_true_2 in Hr, Hs by exact Hk.
  split; [exact Hr|]. split.
  - rewrite Get_result, (healthy_after _ _ H Hf), Hs, lookup_delete_eq. reflexivity.
  - destruct (DeleteWithValue_result key val2 _ (healthy_after _ _ H Hf)) as (Hr2 & _).
    cbn zeta in Hr2. rewrite Hr2, Hs, lookup_delete_eq.
    rewrite bool_decide_eq_false_2 by discriminate. reflexivity.
Qed.

(** *** The relay: what it leaves alone *)

Lemma only_touches_refl (ech : WatchEventChan) (w : World) : only_touches ech w w.
Proof. unfold only_touches. auto. Qed.

Lemma only_touches_trans (ech : WatchEventChan) (w1 w2 w3 : World) :
  only_touches ech w1 w2 -> only_touches ech w2 w3 -> only_touches ech w1 w3.
Proof.
  intros (A1 & A2 & A3 & A4 & A5) (B1 & B2 & B3 & B4 & B5).
  unfold only_touches. repeat split; try congruence.
  intros j Hj. rewrite (B5 j Hj). apply A5, Hj.
Qed.

Lemma send_echan_touches (ech : WatchEventChan) (e : Event) (s : list bool) (w : World) :
  only_touches ech w (send_echan ech e (with_sched s w)).
Proof.
  unfold send_echan, only_touches. cbn [echans with_sched].
  destruct (echans w !! ech) as [c|]; [destruct (is_open c)|]; cbn;
    rewrite ?length_insert; repeat split; auto.
  intros j Hj. apply list_lookup_insert_ne. auto.
Qed.

Lemma notifyWatchEvent_touches (ech : WatchEventChan) (e : Event) (w : World) :
  only_touches ech w (world (notifyWatchEvent ech e w)).
Proof.
  assert (Hw : with_sched (sched w) w = w) by (destruct w; reflexivity).
  unfold notifyWatchEvent.
  destruct (sched w) as [|[] s] eqn:Hs.
  - destruct (can_send ech w); cbn [world]; [|apply only_touches_refl].
    rewrite <- Hw at 2. apply send_echan_touches.
  - destruct (can_send ech w); cbn [world]; [apply send_echan_touches|].
    unfold only_touches. cbn. auto.
  - cbn [world]. unfold only_touches. cbn. auto.
Qed.

Lemma notifyAll_touches (ech : WatchEventChan) (evs : list Event) (w : World) :
  only_touches ech w (world (notifyAll ech evs w)).
Proof.
  revert w. induction evs as [|e evs IH]; intros w; [apply only_touches_refl|].
  cbn [notifyAll]. unfold bind.
  pose proof (notifyWatchEvent_touches ech e w) as H.
  destruct (notifyWatchEvent ech e w) as [ok w'|w']; cbn [world] in *; [|exact H].
  destruct ok; cbn [negb]; [|exact H].
  eapply only_touches_trans; [exact H | apply IH].
Qed.

Lemma close_echan_touches (ech : WatchEventChan) (w : World) :
  only_touches ech w (world (close_echan ech w)).
Proof.
  unfold close_echan, only_touches.
  destruct (echans w !! ech) as [c|]; [destruct (is_open c)|]; cbn;
    rewrite ?length_insert; repeat split; auto;
    intros j Hj; apply list_lookup_insert_ne; auto.
Qed.

(** X6. Whatever the stream, the schedule and the state of its channel,
    the relay touches nothing but its own channel: every other event
    channel, the channels of the heartbeats, the client and the goroutines
    are as before, and no channel is made. *)
Theorem handleWatchEvent_frame (wc : etcd.WatchChan) (ech : WatchEventChan) (w : World) :
  let w' := world (handleWatchEvent wc ech w) in
  client w' = client w /\ cchans w' = cchans w /\ goroutines w' = goroutines w
  /\ length (echans w') = length (echans w)
  /\ (forall j : nat, j <> ech -> echans w' !! j = echans w !! j).
Proof.
  cbn zeta. rewrite handleWatchEvent_notifyAll. unfold bind.
  pose proof (notifyAll_touches ech (relay_events wc) w) as H.
  destruct (notifyAll ech (relay_events wc) w) as [ok w'|w']; cbn [world] in *;
    [|exact H].
  exact (only_touches_trans _ _ _ _ H (close_echan_touches ech w')).
Qed.

(** *** The relay: streams without errors, and cancellation *)

Lemma no_err_app (a b : list Event) : no_err (a ++ b) = no_err a && no_err b.
Proof. unfold no_err. apply forallb_app. Qed.

Lemma no_err_take (n : nat) (l : list Event) : no_err l = true -> no_err (take n l) = true.
Proof.
  revert n. induction l as [|e l IH]; intros [|n] H; try reflexivity.
  simpl in *. apply andb_true_iff in H as [H1 H2]. rewrite H1. simpl. auto.
Qed.

Lemma no_err_convert (events : list etcd.Event) : no_err (map convert events) = true.
Proof. induction events as [|e l IH]; [reflexivity|]. simpl. exact IH. Qed.

Lemma no_err_stream (wc : etcd.WatchChan) :
  Forall (fun r => etcd.Err r = None) wc -> no_err (stream_events wc) = true.
Proof.
  induction 1 as [|r wc Hr _ IH]; [reflexivity|].
  change (stream_events (r :: wc)) with (response_events r ++ stream_events wc)%list.
  rewrite no_err_app, IH. unfold response_events. rewrite Hr. simpl.
  rewrite no_err_convert. reflexivity.
Qed.

Lemma err_is_last_app (a b : list Event) :
  no_err a = true -> err_is_last (a ++ b) = err_is_last b.
Proof.
  induction a as [|e a IH]; intros H; [reflexivity|].
  simpl in H. apply andb_true_iff in H as [H1 H2].
  cbn [app err_is_last]. apply negb_true_iff in H1. rewrite H1. simpl. auto.
Qed.

Lemma err_is_last_no_err (l : list Event) : no_err l = true -> err_is_last l = true.
Proof. intros H. rewrite <- (app_nil_r l). rewrite err_is_last_app by exact H. reflexivity. Qed.

Lemma err_is_last_take_snoc (n : nat) (l : list Event) (x : Event) :
  no_err l = true -> err_is_last (take n (l ++ [x])) = true.
Proof.
  intros H. destruct (Nat.le_gt_cases n (length l)) as [Hle|Hgt].
  - rewrite take_app_le by exact Hle. apply err_is_last_no_err, no_err_take, H.
  - rewrite take_ge by (rewrite length_app; simpl; lia).
    rewrite err_is_last_app by exact H. simpl. destruct (is_err x); reflexivity.
Qed.

(** X7. When no response of the raw stream reports an error, and nothing
    sent on the channel before bore one, no event follows an event that
    bears an error on the channel the relay leaves closed: the only error
    event it can carry is the closing one, at its end. *)
Theorem relay_without_errors (wc : etcd.WatchChan) (ech : WatchEventChan)
    (w : World) (c : Chan Event) :
  echans w !! ech = Some c -> closes c = 0%nat -> held c = true ->
  no_err (sent c) = true ->
  Forall (fun r => etcd.Err r = None) wc ->
  exists c', echans (world (handleWatchEvent wc ech w)) !! ech = Some c'
             /\ closes c' = 1%nat
             /\ err_is_last (sent c') = true.
Proof.
  intros Hc Ho Hh Hn Hwc.
  destruct (handleWatchEvent_spec wc ech w c Hc Ho Hh) as (_ & H1 & _).
  eexists. split; [exact H1|]. cbn [closes sent]. split; [reflexivity|].
  rewrite err_is_last_app by exact Hn. unfold relay_events.
  apply err_is_last_take_snoc, no_err_stream, Hwc.
Qed.

Lemma wins_cancelled (k : nat) (rest : list bool) (n : nat) :
  (k < n)%nat ->
  wins (replicate k true ++ false :: rest) n = k
  /\ remaining (replicate k true ++ false :: rest) n = rest.
Proof.
  revert n. induction k as [|k IH]; intros [|n] Hlt; try lia.
  - split; reflexivity.
  - cbn [replicate app wins remaining].
    destruct (IH n ltac:(lia)) as [H1 H2]. rewrite H1, H2. split; reflexivity.
Qed.

(** X8. The relay stops at the first send that loses against the context:
    if the first [k] selects send and the next finds the context
    cancelled, the channel carries the first [k] events of what the relay
    had to send and no more, the channel is closed, and no later select is
    run. *)
Theorem relay_cancelled (wc : etcd.WatchChan) (ech : WatchEventChan)
    (w : World) (c : Chan Event) (k : nat) (rest : list bool) :
  echans w !! ech = Some c -> closes c = 0%nat -> held c = true ->
  sched w = (replicate k true ++ false :: rest)%list ->
  (k < length (relay_events wc))%nat ->
  let r := handleWatchEvent wc ech w in
  value r = Some tt
  /\ echans (world r) !! ech =
       Some {| cap := cap c; sent := sent c ++ take k (relay_events wc);
               closes := 1; held := true |}
  /\ sched (world r) = rest.
Proof.
  intros Hc Ho Hh Hs Hk. cbn zeta.
  destruct (handleWatchEvent_spec wc ech w c Hc Ho Hh) as (H0 & H1 & H2 & _).
  destruct (wins_cancelled k rest _ Hk) as [W1 W2].
  rewrite Hs, W1 in H1. rewrite Hs, W2 in H2. auto.
Qed.

(** *** Setting up a watch: failed reads, returning, and other channels *)

Lemma etcd_Get_fail (key : string) (opts : list etcd.OpOption) (c : etcd.Client)
    (e : error) :
  (etcd.transport c).1 = Some e ->
  etcd.Get key opts c =
  (inr e, (etcd.transport (etcd.log (etcd.CallGet key opts) c)).2).
Proof.
  intros Hok. unfold etcd.Get.
  pose proof (transport_log (etcd.CallGet key opts) c) as Hl.
  destruct (etcd.transport (etcd.log (etcd.CallGet key opts) c)) as [f c'].
  simpl in *. rewrite Hok in Hl. subst f. reflexivity.
Qed.

Lemma Watch_fail (key : string) (w : World) (e : error) :
  (etcd.transport (client w)).1 = Some e ->
  Watch key w =
  Done (None, Some (GetFailure key e))
       (with_client (etcd.transport (etcd.log (etcd.CallGet key []) (client w))).2 w).
Proof.
  intros Hf. unfold Watch, get, bind, on_client.
  rewrite (etcd_Get_fail key [] _ e Hf). reflexivity.
Qed.

Lemma WatchPrefix_fail (prefixKey : string) (w : World) (e : error) :
  (etcd.transport (client w)).1 = Some e ->
  WatchPrefix prefixKey w =
  Done (None, Some e)
       (with_client
          (etcd.transport
             (etcd.log (etcd.CallGet prefixKey [etcd.WithPrefix; etcd.WithSerializable])
                (client w))).2 w).
Proof.
  intros Hf. unfold WatchPrefix, bind, on_client.
  rewrite (etcd_Get_fail prefixKey _ _ e Hf). reflexivity.
Qed.

(** X9. When the initial read fails, [Watch] returns the nil channel and
    the error wrapped by [get], [WatchPrefix] the nil channel and the
    error of the client as it is; neither opens a change stream, makes a
    channel, starts a goroutine or runs a select. *)
Theorem failed_read_opens_nothing (key : string) (w : World) (e : error) :
  (etcd.transport (client w)).1 = Some e ->
  (let r := Watch key w in
   value r = Some (None, Some (GetFailure key e))
   /\ etcd.calls (client (world r)) = (etcd.calls (client w) ++ [etcd.CallGet key []])%list
   /\ echans (world r) = echans w /\ goroutines (world r) = goroutines w
   /\ sched (world r) = sched w)
  /\
  (let r := WatchPrefix key w in
   value r = Some (None, Some e)
   /\ etcd.calls (client (world r)) =
        (etcd.calls (client w) ++
         [etcd.CallGet key [etcd.WithPrefix; etcd.WithSerializable]])%list
   /\ echans (world r) = echans w /\ goroutines (world r) = goroutines w
   /\ sched (world r) = sched w).
Proof.
  intros Hf. cbn zeta. rewrite (Watch_fail key w e Hf), (WatchPrefix_fail key w e Hf).
  cbn [value world client echans goroutines sched with_client].
  pose proof (transport_store (etcd.log (etcd.CallGet key []) (client w)))
    as (_ & _ & Hc1 & _).
  pose proof (transport_store
                (etcd.log (etcd.CallGet key [etcd.WithPrefix; etcd.WithSerializable])
                   (client w))) as (_ & _ & Hc2 & _).
  rewrite Hc1, Hc2. repeat split.
Qed.

(** X10. [Watch] always returns: its channel has room for the one initial
    event, so no select of its setup can block.  It returns either a new
    channel and a nil error, or the nil channel and an error, and it does
    not panic. *)
Theorem Watch_returns (key : string) (w : World) :
  exists (ch : option WatchEventChan) (err : option error),
    value (Watch key w) = Some (ch, err)
    /\ ((ch = Some (length (echans w)) /\ err = None) \/ (ch = None /\ is_Some err))
    /\ panicked (world (Watch key w)) = panicked w.
Proof.
  destruct (etcd.transport (client w)).1 as [e|] eqn:Ht.
  - rewrite (Watch_fail key w e Ht). eexists _, _. split; [reflexivity|].
    split; [right; eauto | reflexivity].
  - pose proof (Watch_setup key w Ht) as H. cbn zeta in H.
    destruct H as (_ & _ & _ & Hp & H).
    destruct (Nat.eqb _ _); destruct H as (Hv & _); eexists _, _;
      (split; [exact Hv|]); (split; [|exact Hp]); [left | right]; eauto.
Qed.

Lemma Watch_echans (key : string) (w : World) :
  (etcd.transport (client w)).1 = None ->
  take (length (echans w)) (echans (world (Watch key w))) = echans w.
Proof.
  intros Hok. unfold Watch, get, bind, on_client.
  rewrite (etcd_Get_ok key [] _ Hok). cbn [ret etcd.Header etcd.Revision etcd.Kvs].
  unfold etcd.Watch. cbn [client with_client].
  unfold make_echan. cbn [echans with_client].
  unfold etcd.range. cbn [etcd.has_prefix_opt existsb].
  destruct (etcd.store (client w) !! key) as [[|b v]|];
    cbn [length Nat.eqb negb etcd.Value etcd.entry snd fst ret];
    unfold notifyWatchEvent, can_send, send_echan, close_echan, go, hand_over, ret.
  - step_world. apply take_app_length.
  - step_world. destruct (sched w) as [|[] s] eqn:Hsc;
      step_world; rewrite ?Hsc; step_world; apply take_app_length.
  - step_world. apply take_app_length.
Qed.

Lemma WatchPrefix_echans (prefixKey : string) (w : World) :
  (etcd.transport (client w)).1 = None ->
  take (length (echans w)) (echans (world (WatchPrefix prefixKey w))) = echans w.
Proof.
  intros Hok. unfold WatchPrefix, bind, on_client.
  rewrite (etcd_Get_ok prefixKey _ _ Hok). cbn [ret etcd.Header etcd.Revision etcd.Kvs].
  unfold etcd.Watch. cbn [client with_client].
  unfold make_echan. cbn [echans with_client].
  destruct (etcd.range prefixKey _ _) as [|kv kvs];
    cbn [length Nat.eqb negb map notifyEntries ret]; unfold bind;
    unfold notifyWatchEvent, can_send, send_echan, close_echan, go, hand_over, ret.
  - step_world. apply take_app_length.
  - step_world. destruct (sched w) as [|[] s] eqn:Hsc;
      step_world; rewrite ?Hsc; step_world; apply take_app_length.
Qed.

(** X11. [Watch] and [WatchPrefix] leave every event channel that existed
    as it was, whatever the transport, the store and the schedule: they
    send on, close and hand over none but the channel they make. *)
Theorem watches_keep_channels (key : string) (w : World) :
  take (length (echans w)) (echans (world (Watch key w))) = echans w
  /\ take (length (echans w)) (echans (world (WatchPrefix key w))) = echans w.
Proof.
  destruct (etcd.transport (client w)).1 as [e|] eqn:Ht.
  - rewrite (Watch_fail key w e Ht), (WatchPrefix_fail key w e Ht).
    cbn [world echans with_client]. rewrite firstn_all. auto.
  - split; [apply Watch_echans | apply WatchPrefix_echans]; exact Ht.
Qed.

(** X12. For a key that has no entry, [Watch] (when its read goes
    through) runs no select, returns the channel with nothing on it and
    starts the relay; what the channel then carries is what the relay
    sends for the stream opened after the revision of the read. *)
Theorem Watch_absent_key (key : string) (w : World) :
  (etcd.transport (client w)).1 = None ->
  etcd.store (client w) !! key = None ->
  let wch := etcd.feed (client w) key
               [etcd.WithRev (Int64.add (etcd.revision (client w)) 1)] in
  let ch := length (echans w) in
  let r := Watch key w in
  let relay := handleWatchEvent wch ch (world r) in
  value r = Some (Some ch, None)
  /\ sched (world r) = sched w
  /\ goroutines (world r) = (goroutines w ++ [GoHandleWatchEvent wch ch])%list
  /\ value relay = Some tt
  /\ echans (world relay) !! ch =
       Some {| cap := 1;
               sent := take (wins (sched w) (length (relay_events wch)))
                         (relay_events wch);
               closes := 1; held := true |}.
Proof.
  intros Hok Hk. cbn zeta.
  pose proof (Watch_setup key w Hok) as H. cbn zeta in H.
  unfold Watch_initial in H. rewrite Hk in H. cbn [length wins Nat.eqb remaining] in H.
  destruct H as (_ & Hs & _ & _ & Hr & Hc & Hg).
  split; [exact Hr|]. split; [exact Hs|]. split; [exact Hg|].
  match goal with |- context [handleWatchEvent ?wc ?ch ?w0] =>
    destruct (handleWatchEvent_spec wc ch w0 _ Hc eq_refl eq_refl) as (Hv & Hh & _) end.
  split; [exact Hv|]. rewrite Hh, Hs. reflexivity.
Qed.

(** *** Keepalive: two heartbeats *)

Lemma Heartbeat_ok (key : string) (val : list byte) (ttl : Z) (w : World)
    (h' : heartbeat) (c' : etcd.Client) :
  grantKeepAliveLease (newHeartbeat key val ttl) (client w) = ((h', None), c') ->
  Heartbeat key val ttl w =
  Done (Some (length (cchans w)), None)
       (with_goroutines (goroutines w ++ [GoKeepAlive h' false (length (cchans w))])
          (with_cchans (cchans w ++ [mkChan 0]) (with_client c' w))).
Proof.
  intros Hg. unfold Heartbeat, bind, on_client. rewrite Hg. reflexivity.
Qed.

Lemma insert_middle {A : Type} (l k : list A) (x x' : A) :
  <[length l := x']> (l ++ x :: k)%list = (l ++ x' :: k)%list.
Proof. induction l as [|y l IH]; simpl; [reflexivity|]. f_equal. exact IH. Qed.

(** X13. Two calls of [Heartbeat] whose lease grants succeed return two
    different channels and start two keepalive tasks; when the first task
    exits, the first channel is closed, once, and the second is still
    open. *)
Theorem heartbeats_independent (k1 k2 : string) (v1 v2 : list byte) (t1 t2 : Z)
    (w : World) (h1 h2 : heartbeat) (c1 c2 : etcd.Client) :
  grantKeepAliveLease (newHeartbeat k1 v1 t1) (client w) = ((h1, None), c1) ->
  grantKeepAliveLease (newHeartbeat k2 v2 t2) c1 = ((h2, None), c2) ->
  let ch1 := length (cchans w) in
  let ch2 := S (length (cchans w)) in
  let r1 := Heartbeat k1 v1 t1 w in
  let r2 := Heartbeat k2 v2 t2 (world r1) in
  let exit1 := run (GoKeepAlive h1 false ch1) (world r2) in
  value r1 = Some (Some ch1, None)
  /\ value r2 = Some (Some ch2, None)
  /\ goroutines (world r2) =
       (goroutines w ++ [GoKeepAlive h1 false ch1; GoKeepAlive h2 false ch2])%list
  /\ value exit1 = Some tt
  /\ cchans (world exit1) =
       (cchans w ++ [ {| cap := 0; sent := []; closes := 1; held := false |};
                      {| cap := 0; sent := []; closes := 0; held := false |} ])%list
  /\ panicked (world exit1) = panicked w.
Proof.
  intros G1 G2. cbn zeta.
  rewrite (Heartbeat_ok k1 v1 t1 w h1 c1 G1). cbn [world value].
  set (w1 := with_goroutines _ _).
  rewrite (Heartbeat_ok k2 v2 t2 w1 h2 c2 G2). unfold w1. cbn [world value].
  cbn [cchans goroutines with_goroutines with_cchans with_client].
  rewrite length_app, Nat.add_comm. cbn [length Nat.add].
  split; [reflexivity|]. split; [reflexivity|].
  rewrite <- !app_assoc. cbn [app]. split; [reflexivity|].
  unfold run, step, bind, on_client, close_cchan, ret.
  cbn [cchans with_goroutines with_cchans with_client].
  rewrite (list_lookup_middle (cchans w) [mkChan 0] (mkChan 0) _ eq_refl).
  cbn [is_open mkChan closes Nat.eqb]. rewrite insert_middle.
  cbn [value world cchans panicked with_goroutines with_cchans with_client].
  repeat split.
Qed.

End Repository.

(** ** Runs on concrete stores *)

(** C1, where the claim fails: the stream on svc/1 reports a compaction
    error and is closed; the channel of [Watch] carries the initial event,
    then the error event of the response, then a second error event, the
    closing one: an event follows an error event. *)
Lemma error_event_is_followed :
  let w := @start SpecHeartbeat.heartbeat (Examples.server []) [] in
  let r := Watch "svc/1" w in
  let relay := run SpecHeartbeat.keepAlive (GoHandleWatchEvent [Examples.compacted] 0%nat)
                 (world r) in
  let delivered :=
    [ modifyEvent "svc/1" (Examples.bytes "alive");
      errEvent "etcdserver: mvcc: required revision has been compacted";
      errEvent "watch is closed" ] in
  value r = Some (Some 0%nat, None)
  /\ goroutines (world r) = [GoHandleWatchEvent [Examples.compacted] 0%nat]
  /\ value relay = Some tt
  /\ echans (world relay)
       = [ {| cap := 1; sent := delivered; closes := 1; held := true |} ]
  /\ err_is_last delivered = false.
Proof. vm_compute. repeat split. Qed.

Lemma handleWatchEvent_delivers_witness :
  let c : Chan Event := {| cap := 0; sent := []; closes := 0; held := true |} in
  let w : @World SpecHeartbeat.heartbeat :=
    {| client := Examples.server []; echans := [c]; cchans := [];
       sched := [true; false]; goroutines := []; panicked := false |} in
  echans w !! 0%nat = Some c /\ closes c = 0%nat /\ held c = true
  /\ echans (world (handleWatchEvent [Examples.compacted] 0%nat w)) !! 0%nat =
       Some {| cap := 0;
               sent := [errEvent "etcdserver: mvcc: required revision has been compacted"];
               closes := 1; held := true |}.
Proof.
  intros c w. split; [reflexivity|]. split; [reflexivity|]. split; [reflexivity|].
  exact (proj1 (proj2 (handleWatchEvent_delivers [Examples.compacted] 0%nat w c
                         eq_refl eq_refl eq_refl))).
Defined.

(** C2, where the claim fails: svc/2 has an entry with the empty value;
    [Watch] returns its channel with no initial event on it. *)
Lemma Watch_skips_empty_value :
  let w := @start SpecHeartbeat.heartbeat (Examples.server []) [] in
  let r := Watch "svc/2" w in
  etcd.store (client w) !! "svc/2" = Some []
  /\ value r = Some (Some 0%nat, None)
  /\ echans (world r) = [ {| cap := 1; sent := []; closes := 0; held := true |} ].
Proof. vm_compute. repeat split. Qed.

Lemma empty_value_initial_event_witness :
  let w := @start SpecHeartbeat.heartbeat (Examples.server []) [] in
  let c : Chan Event := {| cap := 0; sent := []; closes := 0; held := true |} in
  let w' : @World SpecHeartbeat.heartbeat :=
    {| client := Examples.server []; echans := [c]; cchans := [];
       sched := []; goroutines := []; panicked := false |} in
  let kv1 := {| etcd.Key := Examples.bytes "svc/1"; etcd.Value := Examples.bytes "alive" |} in
  let kv2 := {| etcd.Key := Examples.bytes "svc/2"; etcd.Value := [] |} in
  ((etcd.transport (client w)).1 = None
   /\ etcd.store (client w) !! "svc/2" = Some []
   /\ value (Watch "svc/2" w) = Some (Some 0%nat, None)
   /\ sched (world (Watch "svc/2" w)) = [])
  /\ (echans w' !! 0%nat = Some c /\ kv2 ∈ [kv1; kv2] /\ etcd.Value kv2 = []
      /\ echans (world (notifyEntries 0%nat [kv1; kv2] w')) !! 0%nat =
           Some {| cap := 0;
                   sent := [modifyEvent "svc/1" (Examples.bytes "alive");
                            modifyEvent "svc/2" []];
                   closes := 0; held := true |}).
Proof.
  intros w c w' kv1 kv2.
  assert (Hin : kv2 ∈ [kv1; kv2]) by (right; left).
  pose proof (proj1 (@empty_value_initial_event SpecHeartbeat.heartbeat)
                "svc/2" w eq_refl eq_refl) as H1.
  pose proof (proj2 (@empty_value_initial_event SpecHeartbeat.heartbeat)
                0%nat [kv1; kv2] kv2 w' c eq_refl eq_refl eq_refl eq_refl Hin eq_refl) as H2.
  cbn zeta in H1, H2.
  split.
  - split; [reflexivity|]. split; [reflexivity|]. split; apply H1.
  - split; [reflexivity|]. split; [exact Hin|]. split; [reflexivity|]. apply H2.
Defined.

(** C3, where the claim fails: svc/2 exists with the empty value when
    [Watch] subscribes; the first event of its channel is a later change of
    the key, not a Modify event of the key with the value it had. *)
Lemma first_event_is_a_later_change :
  let w := @start SpecHeartbeat.heartbeat (Examples.server []) [] in
  let r := Watch "svc/2" w in
  let relay := run SpecHeartbeat.keepAlive (GoHandleWatchEvent [Examples.changes] 0%nat)
                 (world r) in
  let relayed :=
    [ {| Type' := EventTypeModify; Key := "svc/2"; Value := Examples.bytes "up"; Err := None |};
      {| Type' := EventTypeDelete; Key := "svc/2"; Value := []; Err := None |};
      errEvent "watch is closed" ] in
  etcd.store (client w) !! "svc/2" = Some []
  /\ goroutines (world r) = [GoHandleWatchEvent [Examples.changes] 0%nat]
  /\ echans (world relay)
       = [ {| cap := 1; sent := relayed; closes := 1; held := true |} ]
  /\ head relayed <> Some (modifyEvent "svc/2" []).
Proof. vm_compute. repeat split. discriminate. Qed.

(** With entries under the prefix svc/, [WatchPrefix] returns no channel:
    it blocks in its first initial send while the context is not
    cancelled, and returns the error once it is; its channel, which has no
    buffer and which nobody else holds, carries nothing. *)
Lemma WatchPrefix_blocks_on_entries :
  let w1 := @start SpecHeartbeat.heartbeat (Examples.server []) [] in
  let w2 := @start SpecHeartbeat.heartbeat (Examples.server []) [false] in
  value (WatchPrefix "svc/" w1) = None
  /\ echans (world (WatchPrefix "svc/" w1))
       = [ {| cap := 0; sent := []; closes := 0; held := false |} ]
  /\ value (WatchPrefix "svc/" w2) = Some (None, Some notify_error)
  /\ echans (world (WatchPrefix "svc/" w2))
       = [ {| cap := 0; sent := []; closes := 1; held := false |} ].
Proof. vm_compute. repeat split. Qed.

Lemma no_entry_under_job (k : string) (v : list byte) :
  Examples.entries !! k = Some v -> String.prefix "job/" k = false.
Proof.
  unfold Examples.entries. rewrite !lookup_insert.
  repeat case_decide; subst; try reflexivity.
  rewrite lookup_empty. discriminate.
Qed.

Lemma initial_events_first_witness :
  let w := @start SpecHeartbeat.heartbeat (Examples.server []) [] in
  ((etcd.transport (client w)).1 = None
   /\ etcd.store (client w) !! "svc/1" = Some (Examples.bytes "alive")
   /\ wins (sched w) 1 = 1%nat
   /\ echans (world (Watch "svc/1" w)) !! 0%nat =
        Some {| cap := 1; sent := [modifyEvent "svc/1" (Examples.bytes "alive")];
                closes := 0; held := true |})
  /\ (value (WatchPrefix "job/" w) = Some (Some 0%nat, None)
      /\ echans (world (WatchPrefix "job/" w)) !! 0%nat =
           Some {| cap := 0; sent := []; closes := 0; held := true |}).
Proof.
  intros w.
  pose proof (proj1 (@initial_events_first SpecHeartbeat.heartbeat)
                "svc/1" "a"%byte (Examples.bytes "live") w eq_refl eq_refl eq_refl) as H1.
  pose proof (proj2 (@initial_events_first SpecHeartbeat.heartbeat)
                "job/" w eq_refl no_entry_under_job) as H2.
  cbn zeta in H1, H2.
  split.
  - split; [reflexivity|]. split; [reflexivity|]. split; [reflexivity|]. apply H1.
  - split; apply H2.
Defined.

Lemma lost_initial_send_aborts_witness :
  let w := @start SpecHeartbeat.heartbeat (Examples.server []) [false] in
  (etcd.transport (client w)).1 = None
  /\ etcd.store (client w) !! "svc/1" = Some (Examples.bytes "alive")
  /\ String.prefix "svc/" "svc/1" = true
  /\ sched w = [false]
  /\ (value (Watch "svc/1" w) = Some (None, Some notify_error)
      /\ goroutines (world (Watch "svc/1" w)) = [])
  /\ (value (WatchPrefix "svc/" w) = Some (None, Some notify_error)
      /\ goroutines (world (WatchPrefix "svc/" w)) = []).
Proof.
  intros w.
  pose proof (proj1 (@lost_initial_send_aborts SpecHeartbeat.heartbeat)
                "svc/1" "a"%byte (Examples.bytes "live") w [] eq_refl eq_refl eq_refl) as H1.
  pose proof (proj2 (@lost_initial_send_aborts SpecHeartbeat.heartbeat)
                "svc/" "svc/1" (Examples.bytes "alive") w [] eq_refl eq_refl eq_refl eq_refl)
    as H2.
  cbn zeta in H1, H2.
  split; [reflexivity|]. split; [reflexivity|]. split; [reflexivity|].
  split; [reflexivity|]. split; split; first [apply H1 | apply H2].
Defined.

Lemma stream_opened_after_read_witness :
  let w := @start SpecHeartbeat.heartbeat (Examples.server []) [] in
  (etcd.transport (client w)).1 = None
  /\ etcd.calls (client (world (Watch "svc/1" w))) =
       [etcd.CallGet "svc/1" []; etcd.CallWatch "svc/1" [etcd.WithRev 8]]
  /\ etcd.calls (client (world (WatchPrefix "svc/" w))) =
       [etcd.CallGet "svc/" [etcd.WithPrefix; etcd.WithSerializable];
        etcd.CallWatch "svc/" [etcd.WithRev 8; etcd.WithPrefix; etcd.WithPrevKV]]
  /\ Int64.in_range 7 /\ 7 < Int64.max_int /\ Int64.add 7 1 = 7 + 1.
Proof.
  intros w.
  assert (Hr : Int64.in_range 7) by (unfold Int64.in_range; vm_compute; split; discriminate).
  assert (Hm : 7 < Int64.max_int) by reflexivity.
  pose proof (@stream_opened_after_read SpecHeartbeat.heartbeat "svc/1" w eq_refl) as H1.
  pose proof (@stream_opened_after_read SpecHeartbeat.heartbeat "svc/" w eq_refl) as H2.
  cbn zeta in H1, H2.
  destruct H1 as (_ & _ & Hw & _ & _ & Hx).
  destruct H2 as (_ & _ & _ & Hp & _ & _).
  split; [reflexivity|]. split; [exact Hw|]. split; [exact Hp|].
  split; [exact Hr|]. split; [exact Hm|]. exact (Hx Hr Hm).
Defined.

Lemma Get_outcomes_witness :
  let w := @start SpecHeartbeat.heartbeat (Examples.server []) [] in
  value (Get "svc/1" w) = Some (Examples.bytes "alive", None)
  /\ value (Get "svc/2" w) = Some ([], Some "key[svc/2]'s value is empty")
  /\ value (Get "svc/3" w) = Some ([], Some "key[svc/3] not exist").
Proof.
  intros w.
  split; [|split].
  - exact (proj1 (Get_outcomes "svc/1" w)).
  - exact (proj1 (Get_outcomes "svc/2" w)).
  - exact (proj1 (Get_outcomes "svc/3" w)).
Defined.

Lemma Put_empty_then_Get_witness :
  let w := @start SpecHeartbeat.heartbeat (Examples.server []) [] in
  etcd.healthy 2 (client w) = true
  /\ value (Put "svc/1" [] w) = Some None
  /\ etcd.store (client (world (Put "svc/1" [] w))) !! "svc/1" = Some []
  /\ value (Get "svc/1" (world (Put "svc/1" [] w)))
       = Some ([], Some "key[svc/1]'s value is empty").
Proof.
  intros w. split; [reflexivity|].
  exact (Put_empty_then_Get "svc/1" w eq_refl).
Defined.

Lemma DeleteWithValue_outcomes_witness :
  let w := @start SpecHeartbeat.heartbeat (Examples.server []) [] in
  (exists err, value (DeleteWithValue "svc/1" (Examples.bytes "alive") w) = Some (true, err))
  /\ (exists err, value (DeleteWithValue "svc/1" (Examples.bytes "dead") w) = Some (false, err)).
Proof.
  intros w. split.
  - destruct (DeleteWithValue_outcomes "svc/1" (Examples.bytes "alive") w)
      as (succeeded & err & Hv & _ & _ & Hiff & _).
    exists err. rewrite Hv. rewrite (proj2 Hiff eq_refl). reflexivity.
  - destruct (DeleteWithValue_outcomes "svc/1" (Examples.bytes "dead") w)
      as (succeeded & err & Hv & _ & _ & Hiff & _).
    exists err. rewrite Hv. destruct succeeded; [|reflexivity].
    discriminate (proj1 Hiff eq_refl).
Defined.

Lemma Heartbeat_outcomes_witness :
  let w1 := @start SpecHeartbeat.heartbeat (Examples.server [Some "lease grant failed"]) [] in
  let w2 := @start SpecHeartbeat.heartbeat (Examples.server []) [] in
  let H := Heartbeat SpecHeartbeat.newHeartbeat SpecHeartbeat.grantKeepAliveLease in
  let h := SpecHeartbeat.newHeartbeat "lock/a" (Examples.bytes "node1") 5 in
  let started := world (H "lock/a" (Examples.bytes "node1") 5 w2) in
  let returned := step SpecHeartbeat.keepAlive (Running (GoKeepAlive h false 0%nat)) started in
  (value (H "lock/a" (Examples.bytes "node1") 5 w1) = Some (None, Some "lease grant failed")
   /\ cchans (world (H "lock/a" (Examples.bytes "node1") 5 w1)) = []
   /\ goroutines (world (H "lock/a" (Examples.bytes "node1") 5 w1)) = [])
  /\ (value (H "lock/a" (Examples.bytes "node1") 5 w2) = Some (Some 0%nat, None)
      /\ cchans started = [mkChan 0]
      /\ cchans started !! 0%nat = Some (mkChan 0) /\ closes (@mkChan Closed 0) = 0%nat
      /\ value returned = Some (Deferred 0%nat)
      /\ cchans (world returned) = [mkChan 0]
      /\ cchans (world (step SpecHeartbeat.keepAlive (Deferred 0%nat) (world returned)))
           !! 0%nat
         = Some {| cap := 0; sent := []; closes := 1; held := false |}).
Proof.
  intros w1 w2 H h started returned.
  pose (p1 := SpecHeartbeat.grantKeepAliveLease h (client w1)).
  pose (p2 := SpecHeartbeat.grantKeepAliveLease h (client w2)).
  pose proof (Heartbeat_outcomes SpecHeartbeat.newHeartbeat
                SpecHeartbeat.grantKeepAliveLease SpecHeartbeat.keepAlive
                "lock/a" (Examples.bytes "node1") 5 w1
                h (Some "lease grant failed") p1.2 eq_refl) as H1.
  pose proof (Heartbeat_outcomes SpecHeartbeat.newHeartbeat
                SpecHeartbeat.grantKeepAliveLease SpecHeartbeat.keepAlive
                "lock/a" (Examples.bytes "node1") 5 w2
                h None p2.2 eq_refl) as H2.
  cbn zeta in H1, H2.
  destruct H1 as (_ & _ & _ & F1 & F2 & F3).
  destruct H2 as (_ & _ & _ & S1 & S2 & S3 & S4).
  destruct (S4 started (mkChan 0) eq_refl eq_refl)
    as (T1 & _ & T3 & _ & T5 & _ & _ & _).
  split; [split; [exact F1 | split; [exact F2 | exact F3]]|].
  split; [exact S1|]. split; [exact S2|]. split; [reflexivity|]. split; [reflexivity|].
  split; [exact T1|]. split; [exact (eq_trans T3 S2)|]. exact T5.
Defined.

Lemma PutIfNotExist_outcomes_witness :
  let w := @start SpecHeartbeat.heartbeat (Examples.server []) [] in
  let P := PutIfNotExist SpecHeartbeat.newHeartbeat SpecHeartbeat.PutIfNotExist in
  let h := SpecHeartbeat.newHeartbeat "lock/b" (Examples.bytes "self") 5 in
  let started := world (P "lock/b" (Examples.bytes "self") 5 w) in
  let returned := step SpecHeartbeat.keepAlive (Running (GoKeepAlive h true 0%nat)) started in
  (is_Some (etcd.store (client w) !! "lock/a")
   /\ value (P "lock/a" (Examples.bytes "self") 5 w) = Some (false, None, None)
   /\ cchans (world (P "lock/a" (Examples.bytes "self") 5 w)) = []
   /\ goroutines (world (P "lock/a" (Examples.bytes "self") 5 w)) = [])
  /\ (etcd.store (client w) !! "lock/b" = None
      /\ value (P "lock/b" (Examples.bytes "self") 5 w) = Some (true, Some 0%nat, None)
      /\ goroutines started = [GoKeepAlive h true 0%nat]
      /\ cchans started !! 0%nat = Some (mkChan 0) /\ closes (@mkChan Closed 0) = 0%nat
      /\ value returned = Some (Deferred 0%nat)
      /\ cchans (world returned) = [mkChan 0]
      /\ cchans (world (step SpecHeartbeat.keepAlive (Deferred 0%nat) (world returned)))
           !! 0%nat
         = Some {| cap := 0; sent := []; closes := 1; held := false |}).
Proof.
  intros w P h started returned.
  pose (ha := SpecHeartbeat.newHeartbeat "lock/a" (Examples.bytes "self") 5).
  pose (p1 := SpecHeartbeat.PutIfNotExist ha (client w)).
  pose (p2 := SpecHeartbeat.PutIfNotExist h (client w)).
  pose proof (PutIfNotExist_outcomes SpecHeartbeat.newHeartbeat
                SpecHeartbeat.PutIfNotExist SpecHeartbeat.keepAlive
                "lock/a" (Examples.bytes "self") 5 w
                ha false None p1.2 eq_refl) as H1.
  pose proof (PutIfNotExist_outcomes SpecHeartbeat.newHeartbeat
                SpecHeartbeat.PutIfNotExist SpecHeartbeat.keepAlive
                "lock/b" (Examples.bytes "self") 5 w
                h true None p2.2 eq_refl) as H2.
  cbn zeta in H1, H2.
  destruct H1 as (_ & _ & _ & F1 & F2 & F3).
  destruct H2 as (_ & _ & _ & S1 & S2 & S3 & S4).
  destruct (S4 started (mkChan 0) eq_refl eq_refl)
    as (T1 & _ & T3 & _ & T5 & _ & _ & _).
  split.
  - split; [eexists; reflexivity|]. split; [exact F1|]. split; [exact F2 | exact F3].
  - split; [reflexivity|]. split; [exact S1|]. split; [exact S3|].
    split; [reflexivity|]. split; [reflexivity|].
    split; [exact T1|]. split; [exact (eq_trans T3 S2)|]. exact T5.
Defined.

(** ** Making a repository: outcomes *)

(** X14. [newEtedRepository] returns exactly one of a repository and an
    error.  It returns a repository exactly when the configuration is an
    [etcd.Config] for which [etcd.New] succeeds, and the repository then
    holds the client [etcd.New] returned; otherwise the error tells which
    of the two went wrong, and the two messages never coincide. *)
Theorem newEtedRepository_outcomes (Config : Type)
    (New : Config -> etcd.Client + error) (config : Construction.any Config) :
  match Construction.newEtedRepository Config New config with
  | (Some r, None) =>
      exists v, config = Construction.AnyConfig Config v
                /\ New v = inl (Construction.client r)
  | (None, Some e) =>
      (config = Construction.AnyOther Config /\ e = "config type is not etc.confit")
      \/ (exists v err, config = Construction.AnyConfig Config v /\ New v = inr err
                        /\ e = "create etc client error:" +:+ err)
  | _ => False
  end
  /\ (forall err : error,
        "config type is not etc.confit" <> "create etc client error:" +:+ err).
Proof.
  split; [|intros err H; discriminate H].
  destruct config as [v|]; cbn.
  - destruct (New v) as [cli|err] eqn:HN; cbn.
    + exists v. auto.
    + right. exists v, err. auto.
  - left. auto.
Qed.

(** ** Runs of the further properties on concrete stores *)

Lemma Put_then_Get_witness :
  let w := @start SpecHeartbeat.heartbeat (Examples.server []) [] in
  etcd.healthy 2 (client w) = true
  /\ value (Get "svc/2" (world (Put "svc/2" (Examples.bytes "up") w)))
       = Some (Examples.bytes "up", None).
Proof.
  intros w. split; [reflexivity|].
  exact (proj2 (Put_then_Get "svc/2" "u"%byte (Examples.bytes "p") w eq_refl)).
Defined.

Lemma Get_other_key_witness :
  let w := @start SpecHeartbeat.heartbeat (Examples.server []) [] in
  "svc/2" <> "svc/1" /\ etcd.healthy 2 (client w) = true
  /\ value (Get "svc/1" (world (Put "svc/2" (Examples.bytes "up") w)))
       = Some (Examples.bytes "alive", None)
  /\ value (Get "svc/1" (world (Delete "svc/2" w))) = Some (Examples.bytes "alive", None).
Proof.
  intros w.
  assert (Hne : "svc/2" <> "svc/1") by discriminate.
  pose proof (Get_other_key "svc/2" "svc/1" (Examples.bytes "up") w Hne eq_refl) as [H1 H2].
  split; [exact Hne|]. split; [reflexivity|]. split.
  - rewrite H1. reflexivity.
  - rewrite H2. reflexivity.
Defined.

Lemma Delete_then_Get_witness :
  let w := @start SpecHeartbeat.heartbeat (Examples.server []) [] in
  etcd.healthy 2 (client w) = true
  /\ (value (Delete "svc/1" w) = Some None
      /\ value (Get "svc/1" (world (Delete "svc/1" w)))
           = Some ([], Some "key[svc/1] not exist"))
  /\ (value (Delete "svc/9" w) = Some None
      /\ value (Get "svc/9" (world (Delete "svc/9" w)))
           = Some ([], Some "key[svc/9] not exist")).
Proof.
  intros w. split; [reflexivity|]. split.
  - exact (Delete_then_Get "svc/1" w eq_refl).
  - exact (Delete_then_Get "svc/9" w eq_refl).
Defined.

Lemma Put_Delete_failure_witness :
  let w := @start SpecHeartbeat.heartbeat (Examples.server [Some "context deadline exceeded"]) [] in
  (etcd.transport (client w)).1 = Some "context deadline exceeded"
  /\ value (Put "svc/1" (Examples.bytes "x") w) = Some (Some "context deadline exceeded")
  /\ value (Delete "svc/1" w) = Some (Some "context deadline exceeded")
  /\ value (Get "svc/1" w)
       = Some ([], Some "get value failure for key[svc/1], error:context deadline exceeded").
Proof.
  intros w.
  pose proof (Put_Delete_failure "svc/1" (Examples.bytes "x") w
                "context deadline exceeded" eq_refl) as ((H1 & _) & (H2 & _) & H3 & _).
  split; [reflexivity|]. split; [exact H1|]. split; [exact H2 | exact H3].
Defined.

Lemma DeleteWithValue_once_witness :
  let w := @start SpecHeartbeat.heartbeat (Examples.server []) [] in
  let first := DeleteWithValue "svc/1" (Examples.bytes "alive") w in
  etcd.healthy 2 (client w) = true
  /\ etcd.store (client w) !! "svc/1" = Some (Examples.bytes "alive")
  /\ value first = Some (true, None)
  /\ value (DeleteWithValue "svc/1" (Examples.bytes "alive") (world first))
       = Some (false, None).
Proof.
  intros w first.
  pose proof (DeleteWithValue_once "svc/1" (Examples.bytes "alive") (Examples.bytes "alive")
                w eq_refl eq_refl) as (H1 & _ & H3).
  split; [reflexivity|]. split; [reflexivity|]. split; [exact H1 | exact H3].
Defined.

Lemma handleWatchEvent_frame_witness :
  let mine : Chan Event := {| cap := 0; sent := []; closes := 0; held := true |} in
  let other : Chan Event :=
    {| cap := 1; sent := [modifyEvent "svc/1" (Examples.bytes "alive")];
       closes := 0; held := true |} in
  let w : @World SpecHeartbeat.heartbeat :=
    {| client := Examples.server []; echans := [mine; other]; cchans := [];
       sched := []; goroutines := []; panicked := false |} in
  1%nat <> 0%nat
  /\ echans (world (handleWatchEvent [Examples.changes] 0%nat w)) !! 1%nat = Some other.
Proof.
  intros mine other w.
  assert (Hne : 1%nat <> 0%nat) by discriminate.
  split; [exact Hne|].
  destruct (handleWatchEvent_frame [Examples.changes] 0%nat w) as (_ & _ & _ & _ & H).
  rewrite (H 1%nat Hne). reflexivity.
Defined.

Lemma relay_without_errors_witness :
  let c : Chan Event :=
    {| cap := 1; sent := [modifyEvent "svc/2" (Examples.bytes "up")];
       closes := 0; held := true |} in
  let w : @World SpecHeartbeat.heartbeat :=
    {| client := Examples.server []; echans := [c]; cchans := [];
       sched := []; goroutines := []; panicked := false |} in
  echans w !! 0%nat = Some c
  /\ no_err (sent c) = true
  /\ Forall (fun r => etcd.Err r = None) [Examples.changes]
  /\ exists c', echans (world (handleWatchEvent [Examples.changes] 0%nat w)) !! 0%nat = Some c'
                /\ closes c' = 1%nat /\ err_is_last (sent c') = true.
Proof.
  intros c w.
  assert (HF : Forall (fun r => etcd.Err r = None) [Examples.changes])
    by (repeat constructor).
  split; [reflexivity|]. split; [reflexivity|]. split; [exact HF|].
  exact (relay_without_errors [Examples.changes] 0%nat w c eq_refl eq_refl eq_refl
           eq_refl HF).
Defined.

Lemma relay_cancelled_witness :
  let c : Chan Event := {| cap := 0; sent := []; closes := 0; held := true |} in
  let w : @World SpecHeartbeat.heartbeat :=
    {| client := Examples.server []; echans := [c]; cchans := [];
       sched := [true; false; true]; goroutines := []; panicked := false |} in
  echans w !! 0%nat = Some c
  /\ sched w = (replicate 1 true ++ false :: [true])%list
  /\ (1 < length (relay_events [Examples.changes]))%nat
  /\ echans (world (handleWatchEvent [Examples.changes] 0%nat w)) !! 0%nat =
       Some {| cap := 0;
               sent := [ {| Type' := EventTypeModify; Key := "svc/2";
                            Value := Examples.bytes "up"; Err := None |} ];
               closes := 1; held := true |}
  /\ sched (world (handleWatchEvent [Examples.changes] 0%nat w)) = [true].
Proof.
  intros c w.
  assert (Hlt : (1 < length (relay_events [Examples.changes]))%nat) by (vm_compute; lia).
  pose proof (relay_cancelled [Examples.changes] 0%nat w c 1 [true]
                eq_refl eq_refl eq_refl eq_refl Hlt) as (_ & H2 & H3).
  split; [reflexivity|]. split; [reflexivity|]. split; [exact Hlt|].
  split; [exact H2 | exact H3].
Defined.

Lemma failed_read_opens_nothing_witness :
  let w := @start SpecHeartbeat.heartbeat (Examples.server [Some "context deadline exceeded"]) [] in
  (etcd.transport (client w)).1 = Some "context deadline exceeded"
  /\ value (Watch "svc/1" w)
       = Some (None, Some "get value failure for key[svc/1], error:context deadline exceeded")
  /\ value (WatchPrefix "svc/" w) = Some (None, Some "context deadline exceeded")
  /\ echans (world (Watch "svc/1" w)) = []
  /\ echans (world (WatchPrefix "svc/" w)) = [].
Proof.
  intros w.
  pose proof (failed_read_opens_nothing "svc/1" w "context deadline exceeded" eq_refl)
    as ((A1 & _ & A3 & _) & _).
  pose proof (failed_read_opens_nothing "svc/" w "context deadline exceeded" eq_refl)
    as (_ & (B1 & _ & B3 & _)).
  split; [reflexivity|]. split; [exact A1|]. split; [exact B1|].
  split; [exact A3 | exact B3].
Defined.

Lemma Watch_absent_key_witness :
  let w := @start SpecHeartbeat.heartbeat (Examples.server []) [] in
  (etcd.transport (client w)).1 = None
  /\ etcd.store (client w) !! "svc/9" = None
  /\ value (Watch "svc/9" w) = Some (Some 0%nat, None)
  /\ sched (world (Watch "svc/9" w)) = [].
Proof.
  intros w.
  pose proof (Watch_absent_key "svc/9" w eq_refl eq_refl) as (H1 & H2 & _).
  split; [reflexivity|]. split; [reflexivity|]. split; [exact H1 | exact H2].
Defined.

Lemma heartbeats_independent_witness :
  let w := @start SpecHeartbeat.heartbeat (Examples.server []) [] in
  let H := Heartbeat SpecHeartbeat.newHeartbeat SpecHeartbeat.grantKeepAliveLease in
  let h1 := SpecHeartbeat.newHeartbeat "lock/a" (Examples.bytes "node1") 5 in
  let r1 := H "lock/a" (Examples.bytes "node1") 5 w in
  let r2 := H "lock/b" (Examples.bytes "node2") 5 (world r1) in
  value r1 = Some (Some 0%nat, None)
  /\ value r2 = Some (Some 1%nat, None)
  /\ cchans (world (run SpecHeartbeat.keepAlive (GoKeepAlive h1 false 0%nat) (world r2)))
       = [ {| cap := 0; sent := []; closes := 1; held := false |};
           {| cap := 0; sent := []; closes := 0; held := false |} ].
Proof.
  intros w H h1 r1 r2.
  pose (h2 := SpecHeartbeat.newHeartbeat "lock/b" (Examples.bytes "node2") 5).
  pose (p1 := SpecHeartbeat.grantKeepAliveLease h1 (client w)).
  pose (p2 := SpecHeartbeat.grantKeepAliveLease h2 p1.2).
  pose proof (heartbeats_independent SpecHeartbeat.newHeartbeat
                SpecHeartbeat.grantKeepAliveLease SpecHeartbeat.keepAlive
                "lock/a" "lock/b" (Examples.bytes "node1") (Examples.bytes "node2") 5 5
                w h1 h2 p1.2 p2.2 eq_refl eq_refl) as (A1 & A2 & _ & _ & A5 & _).
  split; [exact A1|]. split; [exact A2 | exact A5].
Defined.

Lemma WatchPrefix_with_entries_witness :
  let w := @start SpecHeartbeat.heartbeat (Examples.server []) [true] in
  (etcd.transport (client w)).1 = None
  /\ etcd.store (client w) !! "svc/1" = Some (Examples.bytes "alive")
  /\ String.prefix "svc/" "svc/1" = true
  /\ value (WatchPrefix "svc/" w) = None
  /\ goroutines (world (WatchPrefix "svc/" w)) = [].
Proof.
  intros w.
  pose proof (WatchPrefix_with_entries "svc/" "svc/1" (Examples.bytes "alive") w
                eq_refl eq_refl eq_refl) as (H1 & H2).
  split; [reflexivity|]. split; [reflexivity|]. split; [reflexivity|].
  split; [exact H1 | exact H2].
Defined.

Lemma newEtedRepository_outcomes_witness :
  Construction.newEtedRepository unit (fun _ => inr "dial tcp: connection refused")
    (Construction.AnyConfig unit tt)
    = (None, Some "create etc client error:dial tcp: connection refused")
  /\ "config type is not etc.confit"
       <> "create etc client error:dial tcp: connection refused".
Proof.
  split; [reflexivity|].
  exact (proj2 (newEtedRepository_outcomes unit
                  (fun _ => inr "dial tcp: connection refused")
                  (Construction.AnyConfig unit tt))
               "dial tcp: connection refused").
Defined.
